(** * SSO proxy: the single-flight provider middleware and the validator runner

    A shallow embedding of [internal/proxy/providers/singleflight_middleware.go]
    and of the validator runner of the [options] package, with the properties
    the specification states about them.

    Go values are modelled as follows.
    - A [string] is a sequence of bytes: Rocq's [string].
    - A [[]string] argument is a slice, that is a view on a backing array that
      the caller and the callee share.  Slices are locations in a store of
      backing arrays, so that [sort.Strings], which sorts in place, is visible
      to the caller.
    - [interface{}] is the inductive [any] of the dynamic types that occur.
    - An [error] is [option error]: [None] is the nil interface.
    - A method that calls a collaborator (the wrapped provider, the
      single-flight group, the statsd client) threads a [State] and appends
      the call to a trace. *)

From stdpp Require Import base option list sorting gmap strings.
From Stdlib Require Import ZArith Lia Ascii.

Open Scope Z_scope.

(** ** Go library functions used by the source *)

Module Go.

(** [strings.Join(elems, sep)]. *)
Definition strings_Join (elems : list string) (sep : string) : string :=
  String.concat sep elems.

(** [sort.Strings] leaves the slice in increasing order for the byte-wise
    order [<] of Go strings; [String.le] is that order. *)
Definition sort_Strings (x : list string) : list string :=
  merge_sort String.le x.

(** [fmt.Sprintf("%s:%s", a, b)] *)
Definition Sprintf_colon (a b : string) : string := a +:+ ":" +:+ b.
(** [fmt.Sprintf("%s/%s", a, b)] *)
Definition Sprintf_slash (a b : string) : string := a +:+ "/" +:+ b.
(** [fmt.Sprintf("endpoint:%s", a)] *)
Definition Sprintf_endpoint (a : string) : string := "endpoint:" +:+ a.

(** The byte [c] does not occur in [s]. *)
Fixpoint free_of (c : ascii) (s : string) : bool :=
  match s with
  | EmptyString => true
  | String a s' => negb (Ascii.eqb a c) && free_of c s'
  end.

(** A non-empty string in which the byte [c] does not occur. *)
Definition plain_name (c : ascii) (s : string) : bool :=
  free_of c s && negb (String.eqb s "").

End Go.

(** ** Data model *)

Definition loc := positive.

(** A [[]string] value: the location of its backing array.  A location that
  is not allocated is the nil slice. *)
Definition slice := loc.

(** Go's [error] values, by dynamic type. *)
Inductive error :=
| errorString (msg : string)
  (* [errors.New(msg)] *)
| GroupValidationErrorPtr (p : loc)
  (* a [*providers.GroupValidationError] *)
| otherError (typ msg : string).
  (* an error of any other dynamic type *)

Global Instance error_eq_dec : EqDecision error.
Proof. solve_decision. Defined.

Definition ErrUnexpectedReturnType : error :=
errorString "received unexpected return type from single flight func call".

(** The fields of [sessions.SessionState] that the source reads; the rest of
  the session is carried in [Email] and [User]. *)
Record SessionState := mkSession {
AccessToken : string;
RefreshToken : string;
Email : string;
User : string;
}.

(** The type [Response] that [ValidateGroup] declares locally. *)
Record Response := mkResponse {
InGroups : list string;
Allowed : bool;
}.

(** [interface{}]: the dynamic types that the thunks box, the nil interface,
  and any other dynamic type. *)
Inductive any :=
| AnyNil
| AnyResponsePtr (r : Response)
| AnyStrings (l : list string)
| AnyBool (b : bool)
| AnyOther (typ : string).

(** Calls that the middleware makes on its collaborators. *)
Inductive Event :=
| EvProvider (method : string) (args : list string)
| EvSingleDo (compositeKey : string)
| EvStatsdIncr (name : string) (tags : list string) (value : Z).

Global Instance Event_eq_dec : EqDecision Event.
Proof. solve_decision. Defined.

Definition is_provider_call (e : Event) : bool :=
match e with EvProvider _ _ => true | _ => false end.
Definition is_group_call (e : Event) : bool :=
match e with EvSingleDo _ => true | _ => false end.

(** ** State, and the monad the methods run in *)

(** [*ProviderData] is declared in another file of the package; the
    middleware only hands the pointer on. *)
Definition ProviderDataPtr := option loc.

(** [url.URL], as far as its fields are strings. *)
Record URL := mkURL {
  Scheme : string;
  Host : string;
  Path : string;
  RawQuery : string;
}.

(** The state that a method call can read and change: the backing arrays
    of the slices, the private state [U] of the wrapped provider, the state
    [G] of the single-flight group, and the calls made so far. *)
Record State (U G : Type) := mkState {
  slices : gmap loc (list string);
  upstream : U;
  flights : G;
  trace : list Event;
}.
Arguments mkState {U G} _ _ _ _.
Arguments slices {U G} _.
Arguments upstream {U G} _.
Arguments flights {U G} _.
Arguments trace {U G} _.

(** The interface [Provider].  A method of the wrapped provider reads and
    changes the provider's own state; a slice argument is passed as the
    contents it has at the call, a session as the value it points to. *)
Record Provider (U : Type) := mkProvider {
  provider_Data : U → ProviderDataPtr * U;
  provider_Redeem : string → string → U → (option SessionState * option error) * U;
  provider_ValidateGroup :
    string → list string → string → U → (list string * bool * option error) * U;
  provider_UserGroups :
    string → list string → string → U → (list string * option error) * U;
  provider_ValidateSessionToken : SessionState → U → bool * U;
  provider_RefreshSessionToken : SessionState → U → (bool * option error) * U;
  provider_GetSignInURL : URL → string → U → URL * U;
  provider_GetSignOutURL : URL → U → URL * U;
}.
Arguments mkProvider {U} _ _ _ _ _ _ _ _.
Arguments provider_Data {U} _ _.
Arguments provider_Redeem {U} _ _ _ _.
Arguments provider_ValidateGroup {U} _ _ _ _ _.
Arguments provider_UserGroups {U} _ _ _ _ _.
Arguments provider_ValidateSessionToken {U} _ _ _.
Arguments provider_RefreshSessionToken {U} _ _ _.
Arguments provider_GetSignInURL {U} _ _ _ _.
Arguments provider_GetSignOutURL {U} _ _ _.

(** Modelled from the spec: [singleflight.Group], whose package
    [internal/pkg/singleflight] is not among the sources.  Per the contract
    of [Execute(key, work)], a caller of [Do] is either the leader of the
    key, which runs the work itself and gets its (result, error), or a
    follower, which does not run the work and gets the (result, error) that
    the leader's work produced.  Both get a count of the callers that
    shared the execution.  Which of the two a caller is depends on the other
    callers in flight: it is the group's answer [Do_role] here. *)
Inductive Outcome :=
| Leads (count : Z)
| Joins (v : any) (err : option error) (count : Z).

Record Group (G : Type) := mkGroup {
  Do_role : string → G → Outcome * G;
}.
Arguments mkGroup {G} _.
Arguments Do_role {G} _ _ _.

(** The struct [SingleFlightProvider].  Its field [StatsdClient] is the
    sink that the events [EvStatsdIncr] of the trace go to. *)
Record SingleFlightProvider (U G : Type) := mkSingleFlightProvider {
  provider : Provider U;
  single : Group G;
}.
Arguments mkSingleFlightProvider {U G} _ _.
Arguments provider {U G} _.
Arguments single {U G} _.

Section Monad.
Context {U G : Type}.

Definition M (A : Type) : Type := State U G → A * State U G.

#[global] Instance M_ret : MRet M := λ A a st, (a, st).
#[global] Instance M_bind : MBind M :=
  λ A B f m st, let r := m st in f r.1 r.2.

(** A function literal [func() (interface{}, error)]. *)
Definition Thunk : Type := M (any * option error).

Definition emit (e : Event) : M unit :=
  λ st, (tt, mkState (slices st) (upstream st) (flights st) (trace st ++ [e])).

(** The elements of a slice. *)
Definition read_slice (s : slice) : M (list string) :=
  λ st, (default [] (slices st !! s), st).

(** [sort.Strings(s)]: the backing array of [s] is sorted in place. *)
Definition sort_Strings (s : slice) : M unit :=
  λ st, (tt, mkState (alter Go.sort_Strings s (slices st))
                     (upstream st) (flights st) (trace st)).

(** A call of a method of the wrapped provider. *)
Definition call {A} (method : string) (args : list string)
    (f : U → A * U) : M A :=
  λ st, let r := f (upstream st) in
        (r.1, mkState (slices st) r.2 (flights st)
                      (trace st ++ [EvProvider method args])).

(** [g.Do(key, fn)]. *)
Definition single_Do (g : Group G) (key : string) (fn : Thunk)
  : M (any * Z * option error) :=
  λ st, let r := Do_role g key (flights st) in
        let st1 := mkState (slices st) (upstream st) r.2
                           (trace st ++ [EvSingleDo key]) in
        match r.1 with
        | Leads count => let w := fn st1 in ((w.1.1, count, w.1.2), w.2)
        | Joins v err count => ((v, count, err), st1)
        end.

End Monad.
Arguments M : clear implicits.
Arguments Thunk : clear implicits.

(** ** The methods of [SingleFlightProvider] *)

Module SingleFlightProvider.
Section Methods.
Context {U G : Type}.
Implicit Types (p : SingleFlightProvider U G).
Local Abbreviation M := (M U G).
Local Abbreviation Thunk := (Thunk U G).

Definition do p (endpoint key : string) (fn : Thunk) : M (any * option error) :=
  let compositeKey := Go.Sprintf_slash endpoint key in
  '(resp, shared, err) ← single_Do (single p) compositeKey fn;
  (if 0 <? shared
   then emit (EvStatsdIncr "provider.singleflight"
                           [Go.Sprintf_endpoint endpoint] shared)
   else mret tt);;
  mret (resp, err).

Definition Data p : M ProviderDataPtr :=
  call "Data" [] (provider_Data (provider p)).

Definition Redeem p (redirectURL code : string)
  : M (option SessionState * option error) :=
  call "Redeem" [redirectURL; code]
       (provider_Redeem (provider p) redirectURL code).

(** The second argument of [p.do] in [ValidateGroup]: the slice is read as
    it is, the thunk sorts it later. *)
Definition ValidateGroup_key (email : string) (allowedGroups : slice)
  : M string :=
  elems ← read_slice allowedGroups;
  mret (Go.Sprintf_colon email (Go.strings_Join elems ",")).

Definition ValidateGroup_thunk p (email : string) (allowedGroups : slice)
    (accessToken : string) : Thunk :=
  sort_Strings allowedGroups;;
  elems ← read_slice allowedGroups;
  '(inGroups, allowed, err) ←
     call "ValidateGroup" (email :: accessToken :: elems)
          (provider_ValidateGroup (provider p) email elems accessToken);
  match err with
  | Some e => mret (AnyNil, Some e)
  | None => mret (AnyResponsePtr (mkResponse inGroups allowed), None)
  end.

Definition ValidateGroup p (email : string) (allowedGroups : slice)
    (accessToken : string) : M (list string * bool * option error) :=
  key ← ValidateGroup_key email allowedGroups;
  '(response, err) ←
     do p "ValidateGroup" key
        (ValidateGroup_thunk p email allowedGroups accessToken);
  match err with
  | Some e => mret ([], false, Some e)
  | None =>
      match response with
      | AnyResponsePtr r => mret (InGroups r, Allowed r, None)
      | _ => mret ([], false, Some ErrUnexpectedReturnType)
      end
  end.

(** The second argument of [p.do] in [UserGroups], with the statement
    [sort.Strings(groups)] that precedes it. *)
Definition UserGroups_key (email : string) (groups : slice) : M string :=
  sort_Strings groups;;
  elems ← read_slice groups;
  mret (Go.Sprintf_colon email (Go.strings_Join elems ",")).

Definition UserGroups_thunk p (email : string) (groups : slice)
    (accessToken : string) : Thunk :=
  elems ← read_slice groups;
  '(gs, err) ←
     call "UserGroups" (email :: accessToken :: elems)
          (provider_UserGroups (provider p) email elems accessToken);
  mret (AnyStrings gs, err).

Definition UserGroups p (email : string) (groups : slice)
    (accessToken : string) : M (list string * option error) :=
  key ← UserGroups_key email groups;
  '(response, err) ←
     do p "UserGroups" key (UserGroups_thunk p email groups accessToken);
  match err with
  | Some e => mret ([], Some e)
  | None =>
      match response with
      | AnyStrings gs => mret (gs, None)
      | _ => mret ([], Some ErrUnexpectedReturnType)
      end
  end.

Definition ValidateSessionToken_thunk p (s : SessionState) : Thunk :=
  valid ← call "ValidateSessionToken" [AccessToken s]
               (provider_ValidateSessionToken (provider p) s);
  mret (AnyBool valid, None).

Definition ValidateSessionToken p (s : SessionState) : M bool :=
  '(response, err) ←
     do p "ValidateSessionToken" (AccessToken s)
        (ValidateSessionToken_thunk p s);
  match err with
  | Some _ => mret false
  | None =>
      match response with
      | AnyBool valid => mret valid
      | _ => mret false
      end
  end.

Definition RefreshSessionToken_thunk p (s : SessionState) : Thunk :=
  '(ok, err) ← call "RefreshSessionToken" [RefreshToken s]
                    (provider_RefreshSessionToken (provider p) s);
  mret (AnyBool ok, err).

Definition RefreshSessionToken p (s : SessionState)
  : M (bool * option error) :=
  '(response, err) ←
     do p "RefreshSessionToken" (RefreshToken s)
        (RefreshSessionToken_thunk p s);
  match err with
  | Some e => mret (false, Some e)
  | None =>
      match response with
      | AnyBool r => mret (r, None)
      | _ => mret (false, Some ErrUnexpectedReturnType)
      end
  end.

Definition GetSignInURL p (redirectURI : URL) (finalRedirect : string)
  : M URL :=
  call "GetSignInURL" [finalRedirect]
       (provider_GetSignInURL (provider p) redirectURI finalRedirect).

Definition GetSignOutURL p (redirectURI : URL) : M URL :=
  call "GetSignOutURL" [] (provider_GetSignOutURL (provider p) redirectURI).

End Methods.
End SingleFlightProvider.

(** ** What a call hands to the single-flight group *)

Definition call_keys (tr : list Event) : list string :=
  omap (λ e, match e with EvSingleDo k => Some k | _ => None end) tr.

(** The key of the first call of [Do] made between two states. *)
Definition issued_key {U G} (before after : State U G) : option string :=
  head (call_keys (drop (length (trace before)) (trace after))).

(** The events appended to the trace between two states. *)
Definition new_events {U G} (before after : State U G) : list Event :=
  drop (length (trace before)) (trace after).

(** A thunk that only appends to the trace. *)
Definition extends_trace {U G} (fn : Thunk U G) : Prop :=
  ∀ st, ∃ evs, trace (fn st).2 = trace st ++ evs.

(** The events that [do] appends for the metric, for a count [shared]. *)
Definition metric_events (endpoint : string) (shared : Z) : list Event :=
  if 0 <? shared
  then [EvStatsdIncr "provider.singleflight"
          [Go.Sprintf_endpoint endpoint] shared]
  else [].

(** The count that the group returns with an outcome. *)
Definition role_count (o : Outcome) : Z :=
  match o with
  | Leads count => count
  | Joins _ _ count => count
  end.

(** The call on the provider that a caller makes: its own when it leads,
    none when it joins. *)
Definition provider_events (o : Outcome) (ev : Event) : list Event :=
  match o with
  | Leads _ => [ev]
  | Joins _ _ _ => []
  end.

(** The elements of a slice in a state. *)
Definition elems {U G} (st : State U G) (s : slice) : list string :=
  default [] (slices st !! s).

(** A method call [m] passes through to the method [f] of the wrapped
    provider: it returns what [f] returns, leaves the provider in the state
    [f] leaves it in, and makes one call, on the provider; the group and the
    slices are as before. *)
Definition passes_through {U G A} (m : M U G A) (method : string)
    (args : list string) (f : U → A * U) : Prop :=
  ∀ st : State U G,
    (m st).1 = (f (upstream st)).1
    ∧ upstream (m st).2 = (f (upstream st)).2
    ∧ flights (m st).2 = flights st
    ∧ slices (m st).2 = slices st
    ∧ new_events st (m st).2 = [EvProvider method args]
    ∧ trace (m st).2 = trace st ++ [EvProvider method args].

(** ** The validator runner of the package [options] *)

Module Options.
Section Validators.

(** [W] is what a validator reads and changes when it runs: the session
    behind the pointer, the clock, the services it asks. *)
Context {W : Type}.

Definition ErrInvalidEmailAddress : error :=
  errorString "Invalid Email Address In Session State".
Definition ErrValidationError : error :=
  errorString "Error during validation".

(** The interface [Validator]. *)
Record Validator := mkValidator {
  Validate : SessionState → W → option error * W;
}.

(** Modelled from the spec: the method [IsWithinGracePeriod] of
    [*providers.GroupValidationError], which is declared outside the
    sources.  The grace-period-eligible error kind exposes the question
    whether it is still within its grace window right now: a query on the
    state at the time of the call. *)
Variable IsWithinGracePeriod : loc → W → bool.

(** The runner's state: what the validators act on, and the positions of
    the validators that were called, in the order of the calls. *)
Definition VM (A : Type) : Type := W * list nat → A * (W * list nat).

(** [validator.Validate(session)], for the validator at position [i]. *)
Definition invoke (i : nat) (validator : Validator) (session : SessionState)
  : VM (option error) :=
  λ st, let r := Validate validator session st.1 in
        (r.1, (r.2, st.2 ++ [i])).

(** The loop [for _, validator := range validators] from position [i]
    on, [validatorErrors] being the errors appended so far. *)
Fixpoint RunValidators_loop (i : nat) (validators : list Validator)
    (session : SessionState) (validatorErrors : list error)
  : VM (list error) :=
  match validators with
  | [] => λ st, (validatorErrors, st)
  | validator :: rest =>
      λ st, let r := invoke i validator session st in
            match r.1 with
            | Some err =>
                RunValidators_loop (S i) rest session
                  (validatorErrors ++ [err]) r.2
            | None =>
                RunValidators_loop (S i) rest session validatorErrors r.2
            end
  end.

Definition RunValidators (validators : list Validator)
    (session : SessionState) : VM (list error) :=
  RunValidators_loop 0 validators session [].

(** The loop of [RunValidatorsWithGracePeriod] over the errors that
    [RunValidators] returned.  The [err] of the type assertion is local to
    the [if]: the error appended is the one of the loop. *)
Fixpoint grace_loop (errs : list error) (validatorErrors : list error)
  : VM (list error) :=
  match errs with
  | [] => λ st, (validatorErrors, st)
  | err :: rest =>
      λ st,
        match err with
        | GroupValidationErrorPtr e =>
            if IsWithinGracePeriod e st.1
            then grace_loop rest validatorErrors st
            else grace_loop rest (validatorErrors ++ [err]) st
        | _ => grace_loop rest (validatorErrors ++ [err]) st
        end
  end.

Definition RunValidatorsWithGracePeriod (validators : list Validator)
    (session : SessionState) : VM (list error) :=
  λ st, let r := RunValidators validators session st in
        grace_loop r.1 [] r.2.

(** What each validator answers when the validators are evaluated one
    after the other from the state [w], in validator order. *)
Fixpoint verdicts (validators : list Validator) (session : SessionState)
    (w : W) : list (option error) :=
  match validators with
  | [] => []
  | validator :: rest =>
      let r := Validate validator session w in
      r.1 :: verdicts rest session r.2
  end.

(** The state the validators leave. *)
Fixpoint final_world (validators : list Validator) (session : SessionState)
    (w : W) : W :=
  match validators with
  | [] => w
  | validator :: rest =>
      final_world rest session (Validate validator session w).2
  end.

(** An error is suppressed when it is of the grace-period-eligible kind
    and its check answers true. *)
Definition suppressed (w : W) (err : error) : bool :=
  match err with
  | GroupValidationErrorPtr e => IsWithinGracePeriod e w
  | _ => false
  end.

End Validators.
Arguments Validator : clear implicits.
Arguments VM : clear implicits.
End Options.

(** ** The single-flight group, as a transition system *)

Module Singleflight.
Section Model.

(** [W] is what the work reads and changes. *)
Context {W : Type}.

(** The unit of work that a caller hands to the group. *)
Definition Work : Type := W → (any * option error) * W.

Definition caller := nat.

Record InFlightCall := mkInFlightCall {
  call_leader : caller;
  call_work : Work;
  call_joiners : list caller;
}.

(** What [Execute] returns to a caller. *)
Record Delivery := mkDelivery {
  receiver : caller;
  result : any;
  failure : option error;
  joinerCount : Z;
}.

Record GroupState := mkGroupState {
  index : gmap string InFlightCall;
  world : W;
  delivered : list Delivery;
  executed : list (string * caller);
}.

Inductive Step :=
| Arrive (c : caller) (key : string) (work : Work)
| Complete (key : string).

(** Modelled from the spec: [singleflight.Group], whose package
    [internal/pkg/singleflight] is not among the sources.  The model
    follows the contract of [Execute(key, work)]: the first caller for a
    key creates the in-flight call, registers as joiner number one and runs
    the work; a caller that finds an in-flight call for its key joins it
    and waits; on completion the result and error are stored, the key is
    removed from the index and every joiner is handed the same (result,
    error) and the number of joiners.  Callers run concurrently: a run of
    the system is an interleaving of arrivals and completions.  The work
    takes effect when its execution completes. *)
Definition step (s : GroupState) (a : Step) : option GroupState :=
  match a with
  | Arrive c key work =>
      match index s !! key with
      | None =>
          Some (mkGroupState
                  (<[key := mkInFlightCall c work [c]]> (index s))
                  (world s) (delivered s) (executed s))
      | Some f =>
          Some (mkGroupState
                  (<[key := mkInFlightCall (call_leader f) (call_work f)
                                           (call_joiners f ++ [c])]>
                     (index s))
                  (world s) (delivered s) (executed s))
      end
  | Complete key =>
      match index s !! key with
      | None => None
      | Some f =>
          let r := call_work f (world s) in
          let n := Z.of_nat (length (call_joiners f)) in
          Some (mkGroupState
                  (delete key (index s))
                  r.2
                  (delivered s
                   ++ map (λ c, mkDelivery c r.1.1 r.1.2 n) (call_joiners f))
                  (executed s ++ [(key, call_leader f)]))
      end
  end.

Fixpoint run (tr : list Step) (s : GroupState) : option GroupState :=
  match tr with
  | [] => Some s
  | a :: tr' =>
      match step s a with
      | Some s' => run tr' s'
      | None => None
      end
  end.

(** The in-flight call of a key after one more caller has arrived. *)
Definition join_call (f : option InFlightCall) (cw : caller * Work)
  : InFlightCall :=
  match f with
  | None => mkInFlightCall cw.1 cw.2 [cw.1]
  | Some f =>
      mkInFlightCall (call_leader f) (call_work f) (call_joiners f ++ [cw.1])
  end.

(** The callers that arrive for [key] in a run, with their work. *)
Definition arrivals (key : string) (tr : list Step) : list (caller * Work) :=
  omap (λ a, match a with
             | Arrive c k w => if decide (k = key) then Some (c, w) else None
             | Complete _ => None
             end) tr.

(** The run completes no execution for [key]. *)
Definition in_flight_throughout (key : string) (tr : list Step) : bool :=
  forallb (λ a, match a with
                | Complete k => negb (bool_decide (k = key))
                | Arrive _ _ _ => true
                end) tr.

(** The executions of the work that were made for [key]. *)
Definition executions (key : string) (s : GroupState)
  : list (string * caller) :=
  filter (λ x, x.1 = key) (executed s).

End Model.
Arguments GroupState : clear implicits.
Arguments Step : clear implicits.
Arguments Work : clear implicits.
Arguments InFlightCall : clear implicits.
End Singleflight.

(** ** A provider, groups and states to evaluate the methods on *)

Module Sample.

Definition session : SessionState :=
  mkSession "access-1" "refresh-1" "a@x.com" "a".

Definition rejected : error := otherError "*errors.errorString" "code already redeemed".
Definition unreachable : error := otherError "*url.Error" "upstream unreachable".

(** A provider whose state is the list of the codes redeemed so far; a code
    is redeemed once.  An empty token is refused. *)
Definition stub : Provider (list string) :=
  mkProvider
    (λ u, (Some 7%positive, u))
    (λ redirectURL code u,
       if bool_decide (code ∈ u) then ((None, Some rejected), u)
       else ((Some session, None), code :: u))
    (λ email allowedGroups accessToken u,
       if String.eqb accessToken "" then (([], false, Some unreachable), u)
       else ((allowedGroups, true, None), u))
    (λ email groups accessToken u,
       if String.eqb accessToken "" then (([], Some unreachable), u)
       else ((groups, None), u))
    (λ s u, (negb (String.eqb (AccessToken s) ""), u))
    (λ s u,
       if String.eqb (RefreshToken s) "" then ((false, Some unreachable), u)
       else ((true, None), u))
    (λ redirectURI finalRedirect u,
       (mkURL "https" "sso.example.com" "/sign_in" finalRedirect, u))
    (λ redirectURI u,
       (mkURL "https" "sso.example.com" "/sign_out" (RawQuery redirectURI), u)).

(** A caller that leads, with a count of one. *)
Definition alone : Group unit := mkGroup (λ _ g, (Leads 1, g)).


(** A caller that joins an execution and is handed [(v, err)]. *)
Definition joined (v : any) (err : option error) (count : Z) : Group unit :=
  mkGroup (λ _ g, (Joins v err count, g)).

Definition solo : SingleFlightProvider (list string) unit :=
  mkSingleFlightProvider stub alone.

Definition follower (v : any) (err : option error) (count : Z)
  : SingleFlightProvider (list string) unit :=
  mkSingleFlightProvider stub (joined v err count).


(** The slice at location 1 holds [g2, g1]; the slice at 2 holds
    [g1, g2]. *)
Definition st0 : State (list string) unit :=
  mkState {[ 1%positive := ["g2"; "g1"]; 2%positive := ["g1"; "g2"] ]} [] tt [].

Definition blank : SessionState := mkSession "" "" "a@x.com" "a".

Definition uri : URL := mkURL "https" "app.example.com" "/cb" "state=1".

(** Validators that act on a clock: one checks the email, one fails with
    a group validation error and takes one tick. *)
Definition email_validator : Options.Validator Z :=
  Options.mkValidator
    (λ s now,
       (if String.eqb (Email s) "" then Some Options.ErrInvalidEmailAddress
        else None, now)).

Definition group_validator (ptr : loc) : Options.Validator Z :=
  Options.mkValidator (λ s now, (Some (GroupValidationErrorPtr ptr), now + 1)).

(** The grace window of every group validation error ends at [deadline]. *)
Definition grace_until (deadline : Z) : loc → Z → bool :=
  λ ptr now, now <? deadline.

Definition nobody : SessionState := mkSession "access-1" "refresh-1" "" "".

(** Work on a counter of the upstream calls: the answer tells which call
    it was. *)
Definition check : Singleflight.Work nat :=
  λ n, ((AnyBool (Nat.even n), None), S n).

Definition idle : Singleflight.GroupState nat :=
  Singleflight.mkGroupState ∅ 0%nat [] [].

(** Callers 1, 3 and 4 ask for the key [k] while caller 2 asks for another
    key. *)
Definition burst : list (Singleflight.Step nat) :=
  [Singleflight.Arrive 1%nat "k" check;
   Singleflight.Arrive 2%nat "other" check;
   Singleflight.Arrive 3%nat "k" check;
   Singleflight.Arrive 4%nat "k" check].

End Sample.

(** * Properties *)

(** ** Lemmas on strings and sorting *)

Section StringFacts.

Lemma free_of_app c s1 s2 :
  Go.free_of c (s1 +:+ s2) = Go.free_of c s1 && Go.free_of c s2.
Proof.
  induction s1 as [|a s1 IH]; simpl; [done|].
  change (String a s1 +:+ s2) with (String a (s1 +:+ s2)); simpl.
  by rewrite IH, andb_assoc.
Qed.

Lemma free_of_sep c s : Go.free_of c (String c s) = false.
Proof. simpl. by rewrite Ascii.eqb_refl. Qed.

(** Two strings that are free of the separator are determined by what
    they are followed by. *)
Lemma app_sep_inj c a1 a2 r1 r2 :
  Go.free_of c a1 = true → Go.free_of c a2 = true →
  a1 +:+ String c r1 = a2 +:+ String c r2 → a1 = a2 ∧ r1 = r2.
Proof.
  revert a2. induction a1 as [|x a1 IH]; intros [|y a2] H1 H2 Heq.
  - by injection Heq as ->.
  - injection Heq as <- _. simpl in H2. by rewrite Ascii.eqb_refl in H2.
  - injection Heq as -> _. simpl in H1. by rewrite Ascii.eqb_refl in H1.
  - injection Heq as -> Heq. simpl in H1, H2.
    apply andb_prop in H1 as [_ H1]. apply andb_prop in H2 as [_ H2].
    destruct (IH _ H1 H2 Heq) as [-> ->]. done.
Qed.

Lemma Join_cons x y l sep :
  Go.strings_Join (x :: y :: l) sep
  = x +:+ sep +:+ Go.strings_Join (y :: l) sep.
Proof. reflexivity. Qed.

(** [strings.Join] is injective on lists of non-empty strings that are
    free of the (one-byte) separator. *)
Lemma Join_inj c l1 l2 :
  forallb (Go.plain_name c) l1 = true → forallb (Go.plain_name c) l2 = true →
  Go.strings_Join l1 (String c "") = Go.strings_Join l2 (String c "") →
  l1 = l2.
Proof.
  revert l2. induction l1 as [|x l1 IH]; intros l2 H1 H2 Heq.
  - destruct l2 as [|y [|z l2]]; [done|..]; exfalso;
      simpl in H2; unfold Go.plain_name in H2;
      destruct y; simpl in *; try discriminate; done.
  - destruct l2 as [|y l2].
    { exfalso. simpl in H1. unfold Go.plain_name in H1.
      destruct l1; destruct x; simpl in *; try discriminate; done. }
    simpl in H1, H2.
    apply andb_prop in H1 as [Hx H1]. apply andb_prop in H2 as [Hy H2].
    pose proof Hx as Hx'. pose proof Hy as Hy'.
    unfold Go.plain_name in Hx', Hy'.
    apply andb_prop in Hx' as [Fx _]. apply andb_prop in Hy' as [Fy _].
    destruct l1 as [|x' l1], l2 as [|y' l2].
    + simpl in Heq. by subst.
    + exfalso. rewrite Join_cons in Heq. change (Go.strings_Join [x] _) with x in Heq.
      subst x. rewrite free_of_app in Fx. change (String c "" +:+ ?s) with (String c s) in Fx.
      rewrite free_of_sep in Fx. by destruct (Go.free_of c y).
    + exfalso. rewrite Join_cons in Heq. change (Go.strings_Join [y] _) with y in Heq.
      subst y. rewrite free_of_app in Fy. change (String c "" +:+ ?s) with (String c s) in Fy.
      rewrite free_of_sep in Fy. by destruct (Go.free_of c x).
    + rewrite !Join_cons in Heq.
      change (String c "" +:+ ?s) with (String c s) in Heq.
      apply app_sep_inj in Heq as [-> Heq]; [|done..].
      f_equal. apply IH; [done..|]. exact Heq.
Qed.

Lemma sort_Strings_Permutation l : Go.sort_Strings l ≡ₚ l.
Proof. apply merge_sort_Permutation. Qed.

Lemma sort_Strings_Sorted l : Sorted String.le (Go.sort_Strings l).
Proof. apply Sorted_merge_sort; apply _. Qed.

(** The sorted list depends on the elements only, not on their order. *)
Lemma sort_Strings_perm l1 l2 :
  l1 ≡ₚ l2 → Go.sort_Strings l1 = Go.sort_Strings l2.
Proof.
  intros Hp. apply (Sorted_unique String.le); try apply sort_Strings_Sorted.
  by rewrite !sort_Strings_Permutation.
Qed.

Lemma sort_Strings_forallb (P : string → bool) l :
  forallb P (Go.sort_Strings l) = forallb P l.
Proof.
  apply eq_true_iff_eq. rewrite !forallb_forall.
  split; intros H x Hx; apply H;
    apply list_elem_of_In; apply list_elem_of_In in Hx;
    [by rewrite sort_Strings_Permutation | by rewrite <-sort_Strings_Permutation].
Qed.

Lemma sort_Strings_set l :
  (list_to_set (Go.sort_Strings l) : gset string) = list_to_set l.
Proof. apply list_to_set_perm_L, sort_Strings_Permutation. Qed.

End StringFacts.

(** ** The methods that pass through *)

(** Unfold the bind and the return of the monad [M]. *)
Ltac unfold_M := unfold mbind, M_bind, mret, M_ret.

Section PassThrough.
Context {U G : Type}.
Implicit Types (p : SingleFlightProvider U G) (st : State U G).

Lemma call_passes_through {A} method args (f : U → A * U) :
  passes_through (call (G:=G) method args f) method args f.
Proof.
  intros st. unfold new_events, call; simpl.
  rewrite drop_app_length. done.
Qed.

Lemma Redeem_passes_through p redirectURL code :
  passes_through (SingleFlightProvider.Redeem p redirectURL code)
    "Redeem" [redirectURL; code]
    (provider_Redeem (provider p) redirectURL code).
Proof. apply call_passes_through. Qed.

(** C3: the methods that are not coalesced, [Data], [Redeem], [GetSignInURL]
    and [GetSignOutURL], return exactly what the wrapped provider's method
    returns, and every call makes one call of its own on the provider and
    none on the single-flight group: two calls of [Redeem] with one code are
    two calls on the provider, the second on the state the first left. *)
Theorem passthrough_methods p (redirectURL code finalRedirect : string)
    (redirectURI : URL) :
  passes_through (SingleFlightProvider.Data p) "Data" []
    (provider_Data (provider p))
  ∧ passes_through (SingleFlightProvider.Redeem p redirectURL code)
      "Redeem" [redirectURL; code]
      (provider_Redeem (provider p) redirectURL code)
  ∧ passes_through
      (SingleFlightProvider.GetSignInURL p redirectURI finalRedirect)
      "GetSignInURL" [finalRedirect]
      (provider_GetSignInURL (provider p) redirectURI finalRedirect)
  ∧ passes_through (SingleFlightProvider.GetSignOutURL p redirectURI)
      "GetSignOutURL" []
      (provider_GetSignOutURL (provider p) redirectURI)
  ∧ ∀ st,
      let redeem := provider_Redeem (provider p) redirectURL code in
      let first := SingleFlightProvider.Redeem p redirectURL code st in
      let second := SingleFlightProvider.Redeem p redirectURL code first.2 in
      first.1 = (redeem (upstream st)).1
      ∧ second.1 = (redeem (redeem (upstream st)).2).1
      ∧ filter is_group_call (new_events st second.2) = []
      ∧ new_events st second.2
        = [EvProvider "Redeem" [redirectURL; code];
           EvProvider "Redeem" [redirectURL; code]].
Proof.
  repeat split; try apply call_passes_through.
  all: unfold new_events, SingleFlightProvider.Redeem, call; simpl.
  all: rewrite <-(assoc_L (++)), drop_app_length; done.
Qed.

End PassThrough.

(** The same one-time code redeemed twice: the provider is asked twice and
    refuses the second time. *)
Example Redeem_twice :
  let first := SingleFlightProvider.Redeem Sample.solo "/cb" "code-1" Sample.st0 in
  let second := SingleFlightProvider.Redeem Sample.solo "/cb" "code-1" first.2 in
  first.1 = (Some Sample.session, None)
  ∧ second.1 = (None, Some Sample.rejected)
  ∧ trace second.2 = [EvProvider "Redeem" ["/cb"; "code-1"];
                      EvProvider "Redeem" ["/cb"; "code-1"]].
Proof. vm_compute. done. Qed.

(** ** The coalesced methods *)

Section Coalesced.
Context {U G : Type}.
Implicit Types (p : SingleFlightProvider U G) (st : State U G).
Import SingleFlightProvider.

(** The metric that [do] sends for a count [shared]. *)
Lemma do_unfold p endpoint key (fn : Thunk U G) st :
  let r := single_Do (single p) (Go.Sprintf_slash endpoint key) fn st in
  do p endpoint key fn st
  = ((r.1.1.1, r.1.2),
     mkState (slices r.2) (upstream r.2) (flights r.2)
       (trace r.2 ++
        if 0 <? r.1.1.2
        then [EvStatsdIncr "provider.singleflight"
                [Go.Sprintf_endpoint endpoint] r.1.1.2]
        else [])).
Proof.
  simpl. unfold do; unfold_M; simpl.
  destruct (single_Do _ _ _ _) as [[[resp shared] err] st']; simpl.
  destruct (0 <? shared); simpl; [done|].
  destruct st'; simpl. by rewrite app_nil_r.
Qed.

(** What [Do] returns to a leader and to a follower. *)
Lemma single_Do_leads (g : Group G) key (fn : Thunk U G) st count :
  (Do_role g key (flights st)).1 = Leads count →
  let st1 := mkState (slices st) (upstream st)
                     (Do_role g key (flights st)).2
                     (trace st ++ [EvSingleDo key]) in
  single_Do g key fn st = (((fn st1).1.1, count, (fn st1).1.2), (fn st1).2).
Proof. intros H. unfold single_Do; simpl. by rewrite H. Qed.

Lemma single_Do_joins (g : Group G) key (fn : Thunk U G) st v err count :
  (Do_role g key (flights st)).1 = Joins v err count →
  single_Do g key fn st
  = ((v, count, err),
     mkState (slices st) (upstream st) (Do_role g key (flights st)).2
             (trace st ++ [EvSingleDo key])).
Proof. intros H. unfold single_Do; simpl. by rewrite H. Qed.

(** Each coalesced method, in terms of what [do] returns to it. *)
Lemma ValidateGroup_unfold p email s tok st :
  let k := ValidateGroup_key email s st in
  let r := do p "ValidateGroup" k.1 (ValidateGroup_thunk p email s tok) k.2 in
  ValidateGroup p email s tok st
  = (match r.1.2 with
     | Some e => ([], false, Some e)
     | None =>
         match r.1.1 with
         | AnyResponsePtr x => (InGroups x, Allowed x, None)
         | _ => ([], false, Some ErrUnexpectedReturnType)
         end
     end, r.2).
Proof.
  simpl. unfold ValidateGroup; unfold_M; simpl.
  destruct (do _ _ _ _ _) as [[resp [e|]] st']; simpl; [done|].
  by destruct resp.
Qed.

Lemma UserGroups_unfold p email s tok st :
  let k := UserGroups_key email s st in
  let r := do p "UserGroups" k.1 (UserGroups_thunk p email s tok) k.2 in
  UserGroups p email s tok st
  = (match r.1.2 with
     | Some e => ([], Some e)
     | None =>
         match r.1.1 with
         | AnyStrings gs => (gs, None)
         | _ => ([], Some ErrUnexpectedReturnType)
         end
     end, r.2).
Proof.
  simpl. unfold UserGroups; unfold_M; simpl.
  destruct (do _ _ _ _ _) as [[resp [e|]] st']; simpl; [done|].
  by destruct resp.
Qed.

Lemma ValidateSessionToken_unfold p sess st :
  let r := do p "ValidateSessionToken" (AccessToken sess)
              (ValidateSessionToken_thunk p sess) st in
  ValidateSessionToken p sess st
  = (match r.1.2 with
     | Some _ => false
     | None => match r.1.1 with AnyBool valid => valid | _ => false end
     end, r.2).
Proof.
  simpl. unfold ValidateSessionToken; unfold_M; simpl.
  destruct (do _ _ _ _ _) as [[resp [e|]] st']; simpl; [done|].
  by destruct resp.
Qed.

Lemma RefreshSessionToken_unfold p sess st :
  let r := do p "RefreshSessionToken" (RefreshToken sess)
              (RefreshSessionToken_thunk p sess) st in
  RefreshSessionToken p sess st
  = (match r.1.2 with
     | Some e => (false, Some e)
     | None =>
         match r.1.1 with
         | AnyBool b => (b, None)
         | _ => (false, Some ErrUnexpectedReturnType)
         end
     end, r.2).
Proof.
  simpl. unfold RefreshSessionToken; unfold_M; simpl.
  destruct (do _ _ _ _ _) as [[resp [e|]] st']; simpl; [done|].
  by destruct resp.
Qed.

(** The error of each thunk is the error of the provider's method. *)
Lemma ValidateGroup_thunk_error p email s tok st :
  (ValidateGroup_thunk p email s tok st).1.2
  = (provider_ValidateGroup (provider p) email
       (elems (sort_Strings s st).2 s) tok (upstream st)).1.2.
Proof.
  unfold ValidateGroup_thunk, mbind, M_bind, mret, M_ret, call, read_slice,
    elems; simpl.
  destruct (provider_ValidateGroup _ _ _ _ _) as [[[ig al] [e|]] u']; done.
Qed.

Lemma UserGroups_thunk_error p email s tok st :
  (UserGroups_thunk p email s tok st).1.2
  = (provider_UserGroups (provider p) email (elems st s) tok
       (upstream st)).1.2.
Proof.
  unfold UserGroups_thunk, mbind, M_bind, mret, M_ret, call, read_slice,
    elems; simpl.
  destruct (provider_UserGroups _ _ _ _ _) as [[gs e] u']; done.
Qed.

Lemma RefreshSessionToken_thunk_error p sess st :
  (RefreshSessionToken_thunk p sess st).1.2
  = (provider_RefreshSessionToken (provider p) sess (upstream st)).1.2.
Proof.
  unfold RefreshSessionToken_thunk, mbind, M_bind, mret, M_ret, call; simpl.
  destruct (provider_RefreshSessionToken _ _ _) as [[b e] u']; done.
Qed.

Lemma ValidateSessionToken_thunk_value p sess st :
  (ValidateSessionToken_thunk p sess st).1
  = (AnyBool (provider_ValidateSessionToken (provider p) sess
                (upstream st)).1, None).
Proof. reflexivity. Qed.



(** C10: [ValidateSessionToken] returns a boolean only; when the coalesced
    call yields an error, or a result that is not a boolean, it returns
    [false]. *)
Theorem ValidateSessionToken_fault_is_false p sess st v err :
  (do p "ValidateSessionToken" (AccessToken sess)
      (ValidateSessionToken_thunk p sess) st).1 = (v, err) →
  err ≠ None ∨ (∀ b, v ≠ AnyBool b) →
  (ValidateSessionToken p sess st).1 = false.
Proof.
  intros Hdo Hbad. rewrite ValidateSessionToken_unfold; simpl.
  rewrite Hdo; simpl. destruct err as [e|]; [done|].
  destruct Hbad as [?|Hv]; [done|]. destruct v; try done.
  by destruct (Hv b).
Qed.

(** C4, as amended: when the value that the coalescing group returns
    cannot be unboxed into the shape a method expects, [ValidateGroup],
    [UserGroups] and [RefreshSessionToken] report
    [ErrUnexpectedReturnType], with zero values for their other results;
    [ValidateSessionToken], which has no error result, returns [false]. *)
Theorem shape_mismatch p email s tok sess st v :
  let vg := ValidateGroup_key email s st in
  let ug := UserGroups_key email s st in
  ((do p "ValidateGroup" vg.1 (ValidateGroup_thunk p email s tok) vg.2).1
     = (v, None) →
   (∀ r, v ≠ AnyResponsePtr r) →
   (ValidateGroup p email s tok st).1
     = ([], false, Some ErrUnexpectedReturnType))
  ∧ ((do p "UserGroups" ug.1 (UserGroups_thunk p email s tok) ug.2).1
       = (v, None) →
     (∀ l, v ≠ AnyStrings l) →
     (UserGroups p email s tok st).1 = ([], Some ErrUnexpectedReturnType))
  ∧ ((do p "RefreshSessionToken" (RefreshToken sess)
         (RefreshSessionToken_thunk p sess) st).1 = (v, None) →
     (∀ b, v ≠ AnyBool b) →
     (RefreshSessionToken p sess st).1
       = (false, Some ErrUnexpectedReturnType))
  ∧ ((do p "ValidateSessionToken" (AccessToken sess)
         (ValidateSessionToken_thunk p sess) st).1 = (v, None) →
     (∀ b, v ≠ AnyBool b) →
     (ValidateSessionToken p sess st).1 = false).
Proof.
  simpl. repeat split; intros Hdo Hv.
  - rewrite ValidateGroup_unfold; simpl. rewrite Hdo; simpl.
    destruct v; try done. by destruct (Hv r).
  - rewrite UserGroups_unfold; simpl. rewrite Hdo; simpl.
    destruct v; try done. by destruct (Hv l).
  - rewrite RefreshSessionToken_unfold; simpl. rewrite Hdo; simpl.
    destruct v; try done. by destruct (Hv b).
  - rewrite ValidateSessionToken_unfold; simpl. rewrite Hdo; simpl.
    destruct v; try done. by destruct (Hv b).
Qed.

(** The slice that [sort.Strings] leaves. *)
Lemma elems_sort_Strings s st :
  elems (sort_Strings s st).2 s = Go.sort_Strings (elems st s).
Proof.
  unfold elems, sort_Strings; simpl. rewrite lookup_alter_eq.
  by destruct (slices st !! s).
Qed.

Lemma ValidateGroup_key_eq email s st :
  ValidateGroup_key email s st
  = (Go.Sprintf_colon email (Go.strings_Join (elems st s) ","), st).
Proof. reflexivity. Qed.

Lemma UserGroups_key_eq email s st :
  UserGroups_key email s st
  = (Go.Sprintf_colon email
       (Go.strings_Join (Go.sort_Strings (elems st s)) ","),
     (sort_Strings s st).2).
Proof.
  unfold UserGroups_key; unfold_M; simpl.
  f_equal. change (default [] _) with (elems (sort_Strings s st).2 s).
  by rewrite elems_sort_Strings.
Qed.

(** What [do] returns to a leader and to a follower. *)
Lemma do_leads p endpoint key (fn : Thunk U G) st count :
  (Do_role (single p) (Go.Sprintf_slash endpoint key) (flights st)).1
    = Leads count →
  (do p endpoint key fn st).1
  = (fn (mkState (slices st) (upstream st)
           (Do_role (single p) (Go.Sprintf_slash endpoint key)
              (flights st)).2
           (trace st ++ [EvSingleDo (Go.Sprintf_slash endpoint key)]))).1.
Proof.
  intros H. rewrite do_unfold; simpl.
  rewrite (single_Do_leads _ _ fn _ _ H); simpl.
  by destruct (fn _) as [[??] ?].
Qed.

Lemma do_joins p endpoint key (fn : Thunk U G) st v err count :
  (Do_role (single p) (Go.Sprintf_slash endpoint key) (flights st)).1
    = Joins v err count →
  (do p endpoint key fn st).1 = (v, err).
Proof.
  intros H. rewrite do_unfold; simpl.
  by rewrite (single_Do_joins _ _ _ _ _ _ _ H).
Qed.

(** The result of each coalesced method, from what [do] returns to it. *)
Lemma ValidateGroup_result p email s tok st :
  (ValidateGroup p email s tok st).1
  = match (do p "ValidateGroup"
              (Go.Sprintf_colon email (Go.strings_Join (elems st s) ","))
              (ValidateGroup_thunk p email s tok) st).1 with
    | (_, Some e) => ([], false, Some e)
    | (AnyResponsePtr x, None) => (InGroups x, Allowed x, None)
    | (_, None) => ([], false, Some ErrUnexpectedReturnType)
    end.
Proof.
  rewrite ValidateGroup_unfold, ValidateGroup_key_eq; simpl.
  destruct (do _ _ _ _ _) as [[resp [e|]] st']; simpl; [by destruct resp|done].
Qed.

Lemma UserGroups_result p email s tok st :
  (UserGroups p email s tok st).1
  = match (do p "UserGroups"
              (Go.Sprintf_colon email
                 (Go.strings_Join (Go.sort_Strings (elems st s)) ","))
              (UserGroups_thunk p email s tok) (sort_Strings s st).2).1 with
    | (_, Some e) => ([], Some e)
    | (AnyStrings gs, None) => (gs, None)
    | (_, None) => ([], Some ErrUnexpectedReturnType)
    end.
Proof.
  rewrite UserGroups_unfold, UserGroups_key_eq; simpl.
  destruct (do _ _ _ _ _) as [[resp [e|]] st']; simpl; [by destruct resp|done].
Qed.

Lemma ValidateSessionToken_result p sess st :
  (ValidateSessionToken p sess st).1
  = match (do p "ValidateSessionToken" (AccessToken sess)
              (ValidateSessionToken_thunk p sess) st).1 with
    | (AnyBool valid, None) => valid
    | _ => false
    end.
Proof.
  rewrite ValidateSessionToken_unfold; simpl.
  destruct (do _ _ _ _ _) as [[resp [e|]] st']; simpl; [by destruct resp|done].
Qed.

Lemma RefreshSessionToken_result p sess st :
  (RefreshSessionToken p sess st).1
  = match (do p "RefreshSessionToken" (RefreshToken sess)
              (RefreshSessionToken_thunk p sess) st).1 with
    | (_, Some e) => (false, Some e)
    | (AnyBool b, None) => (b, None)
    | (_, None) => (false, Some ErrUnexpectedReturnType)
    end.
Proof.
  rewrite RefreshSessionToken_unfold; simpl.
  destruct (do _ _ _ _ _) as [[resp [e|]] st']; simpl; [by destruct resp|done].
Qed.

(** The elements of a slice depend on the store only. *)
Lemma elems_slices (st st' : State U G) s :
  slices st' = slices st → elems st' s = elems st s.
Proof. unfold elems. by intros ->. Qed.

(** C8: the error of the upstream work reaches the caller as it is.  A
    caller that leads the execution gets the error that the provider's
    method returned to its thunk; a caller that joins gets the error that
    the group hands it, which is the error of the leader's work; and a
    method returns no other error than that one and
    [ErrUnexpectedReturnType].  The work of [ValidateSessionToken] returns
    no error. *)
Theorem upstream_error_verbatim p email s tok sess st :
  let role_of endpoint key :=
    (Do_role (single p) (Go.Sprintf_slash endpoint key) (flights st)).1 in
  let sorted := Go.sort_Strings (elems st s) in
  let key_vg := Go.Sprintf_colon email (Go.strings_Join (elems st s) ",") in
  let key_ug := Go.Sprintf_colon email (Go.strings_Join sorted ",") in
  let up_vg :=
    (provider_ValidateGroup (provider p) email sorted tok (upstream st)).1.2 in
  let up_ug :=
    (provider_UserGroups (provider p) email sorted tok (upstream st)).1.2 in
  let up_rt :=
    (provider_RefreshSessionToken (provider p) sess (upstream st)).1.2 in
  (* a caller that leads *)
  (∀ count e,
     role_of "ValidateGroup" key_vg = Leads count → up_vg = Some e →
     (ValidateGroup p email s tok st).1 = ([], false, Some e))
  ∧ (∀ count e,
       role_of "UserGroups" key_ug = Leads count → up_ug = Some e →
       (UserGroups p email s tok st).1 = ([], Some e))
  ∧ (∀ count e,
       role_of "RefreshSessionToken" (RefreshToken sess) = Leads count →
       up_rt = Some e →
       (RefreshSessionToken p sess st).1 = (false, Some e))
  (* a caller that joins *)
  ∧ (∀ v count e,
       role_of "ValidateGroup" key_vg = Joins v (Some e) count →
       (ValidateGroup p email s tok st).1 = ([], false, Some e))
  ∧ (∀ v count e,
       role_of "UserGroups" key_ug = Joins v (Some e) count →
       (UserGroups p email s tok st).1 = ([], Some e))
  ∧ (∀ v count e,
       role_of "RefreshSessionToken" (RefreshToken sess)
         = Joins v (Some e) count →
       (RefreshSessionToken p sess st).1 = (false, Some e))
  (* no other error *)
  ∧ (∀ e, (ValidateGroup p email s tok st).1.2 = Some e →
          e = ErrUnexpectedReturnType
          ∨ match role_of "ValidateGroup" key_vg with
            | Leads _ => up_vg = Some e
            | Joins _ err _ => err = Some e
            end)
  ∧ (∀ e, (UserGroups p email s tok st).1.2 = Some e →
          e = ErrUnexpectedReturnType
          ∨ match role_of "UserGroups" key_ug with
            | Leads _ => up_ug = Some e
            | Joins _ err _ => err = Some e
            end)
  ∧ (∀ e, (RefreshSessionToken p sess st).1.2 = Some e →
          e = ErrUnexpectedReturnType
          ∨ match role_of "RefreshSessionToken" (RefreshToken sess) with
            | Leads _ => up_rt = Some e
            | Joins _ err _ => err = Some e
            end)
  ∧ (∀ st', (ValidateSessionToken_thunk p sess st').1.2 = None).
Proof.
  cbv zeta.
  assert (Hvg : ∀ count,
    (Do_role (single p)
       (Go.Sprintf_slash "ValidateGroup"
          (Go.Sprintf_colon email (Go.strings_Join (elems st s) ",")))
       (flights st)).1 = Leads count →
    (do p "ValidateGroup"
        (Go.Sprintf_colon email (Go.strings_Join (elems st s) ","))
        (ValidateGroup_thunk p email s tok) st).1.2
    = (provider_ValidateGroup (provider p) email
         (Go.sort_Strings (elems st s)) tok (upstream st)).1.2).
  { intros count H. rewrite (do_leads _ _ _ _ _ _ H).
    rewrite ValidateGroup_thunk_error, elems_sort_Strings.
    by rewrite (elems_slices st). }
  assert (Hug : ∀ count,
    (Do_role (single p)
       (Go.Sprintf_slash "UserGroups"
          (Go.Sprintf_colon email
             (Go.strings_Join (Go.sort_Strings (elems st s)) ",")))
       (flights st)).1 = Leads count →
    (do p "UserGroups"
        (Go.Sprintf_colon email
           (Go.strings_Join (Go.sort_Strings (elems st s)) ","))
        (UserGroups_thunk p email s tok) (sort_Strings s st).2).1.2
    = (provider_UserGroups (provider p) email
         (Go.sort_Strings (elems st s)) tok (upstream st)).1.2).
  { intros count H.
    rewrite (do_leads p _ _ _ (sort_Strings s st).2 count H).
    rewrite UserGroups_thunk_error.
    by rewrite (elems_slices (sort_Strings s st).2), elems_sort_Strings. }
  assert (Hrt : ∀ count,
    (Do_role (single p)
       (Go.Sprintf_slash "RefreshSessionToken" (RefreshToken sess))
       (flights st)).1 = Leads count →
    (do p "RefreshSessionToken" (RefreshToken sess)
        (RefreshSessionToken_thunk p sess) st).1.2
    = (provider_RefreshSessionToken (provider p) sess (upstream st)).1.2).
  { intros count H. rewrite (do_leads _ _ _ _ _ _ H).
    by rewrite RefreshSessionToken_thunk_error. }
  repeat split.
  - intros count e H Hup. rewrite ValidateGroup_result.
    specialize (Hvg _ H). rewrite Hup in Hvg.
    destruct (do p "ValidateGroup" _ _ _).1 as [resp err] eqn:E.
    assert (err = Some e) as ->
      by first [ exact Hvg
               | change err with (resp, err).2; rewrite <-E; exact Hvg ].
    by destruct resp.
  - intros count e H Hup. rewrite UserGroups_result.
    specialize (Hug _ H). rewrite Hup in Hug.
    destruct (do p "UserGroups" _ _ _).1 as [resp err] eqn:E.
    assert (err = Some e) as ->
      by first [ exact Hug
               | change err with (resp, err).2; rewrite <-E; exact Hug ].
    by destruct resp.
  - intros count e H Hup. rewrite RefreshSessionToken_result.
    specialize (Hrt _ H). rewrite Hup in Hrt.
    destruct (do p "RefreshSessionToken" _ _ _).1 as [resp err] eqn:E.
    assert (err = Some e) as ->
      by first [ exact Hrt
               | change err with (resp, err).2; rewrite <-E; exact Hrt ].
    by destruct resp.
  - intros v count e H. rewrite ValidateGroup_result.
    rewrite (do_joins _ _ _ _ _ _ _ _ H). by destruct v.
  - intros v count e H. rewrite UserGroups_result.
    rewrite (do_joins p _ _ _ (sort_Strings s st).2 _ _ _ H). by destruct v.
  - intros v count e H. rewrite RefreshSessionToken_result.
    rewrite (do_joins _ _ _ _ _ _ _ _ H). by destruct v.
  - intros e. rewrite ValidateGroup_result.
    destruct (Do_role _ (Go.Sprintf_slash "ValidateGroup" _) _).1 as [count|v err count] eqn:H.
    + rewrite <-(Hvg _ eq_refl).
      destruct (do p "ValidateGroup" _ _ _).1 as [resp [e'|]]; simpl;
        [destruct resp; naive_solver|].
      destruct resp; simpl; naive_solver.
    + rewrite (do_joins _ _ _ _ _ _ _ _ H).
      destruct err as [e'|]; destruct v; simpl; naive_solver.
  - intros e. rewrite UserGroups_result.
    destruct (Do_role _ (Go.Sprintf_slash "UserGroups" _) _).1 as [count|v err count] eqn:H.
    + rewrite <-(Hug _ eq_refl).
      destruct (do p "UserGroups" _ _ _).1 as [resp [e'|]]; simpl;
        [destruct resp; naive_solver|].
      destruct resp; simpl; naive_solver.
    + rewrite (do_joins p _ _ _ (sort_Strings s st).2 _ _ _ H).
      destruct err as [e'|]; destruct v; simpl; naive_solver.
  - intros e. rewrite RefreshSessionToken_result.
    destruct (Do_role _ (Go.Sprintf_slash "RefreshSessionToken" _) _).1 as [count|v err count] eqn:H.
    + rewrite <-(Hrt _ eq_refl).
      destruct (do p "RefreshSessionToken" _ _ _).1 as [resp [e'|]]; simpl;
        [destruct resp; naive_solver|].
      destruct resp; simpl; naive_solver.
    + rewrite (do_joins _ _ _ _ _ _ _ _ H).
      destruct err as [e'|]; destruct v; simpl; naive_solver.
Qed.

End Coalesced.

(** *** The coalesced methods on the sample provider *)

(** A follower that is handed a list of strings for a session check gets
    [false]. *)
Lemma ValidateSessionToken_fault_is_false_witness :
  (SingleFlightProvider.ValidateSessionToken
     (Sample.follower (AnyStrings ["g1"]) None 2)
     Sample.session Sample.st0).1 = false.
Proof.
  apply (ValidateSessionToken_fault_is_false _ _ _ (AnyStrings ["g1"]) None).
  - vm_compute. reflexivity.
  - right. intros b. discriminate.
Defined.

(** C4 as stated fails for [ValidateSessionToken]: the group hands a value
    that is not a boolean, and the method returns [false], the value it
    returns for a token that the provider finds invalid; no error is
    reported. *)
Lemma shape_mismatch_counterexample :
  let p := Sample.follower (AnyStrings ["g1"]) None 2 in
  (SingleFlightProvider.do p "ValidateSessionToken" "access-1"
     (SingleFlightProvider.ValidateSessionToken_thunk p Sample.session)
     Sample.st0).1 = (AnyStrings ["g1"], None)
  ∧ (SingleFlightProvider.ValidateSessionToken p Sample.session
       Sample.st0).1 = false
  ∧ (SingleFlightProvider.ValidateSessionToken Sample.solo Sample.blank
       Sample.st0).1 = false.
Proof. vm_compute. done. Qed.

Lemma shape_mismatch_witness :
  (SingleFlightProvider.ValidateGroup (Sample.follower (AnyBool true) None 2)
     "a@x.com" 1%positive "tok" Sample.st0).1
    = ([], false, Some ErrUnexpectedReturnType)
  ∧ (SingleFlightProvider.UserGroups (Sample.follower AnyNil None 2)
       "a@x.com" 1%positive "tok" Sample.st0).1
    = ([], Some ErrUnexpectedReturnType)
  ∧ (SingleFlightProvider.RefreshSessionToken
       (Sample.follower (AnyOther "int") None 2) Sample.session
       Sample.st0).1
    = (false, Some ErrUnexpectedReturnType).
Proof.
  split; [|split].
  - apply (shape_mismatch (Sample.follower (AnyBool true) None 2)
             "a@x.com" 1%positive "tok" Sample.session Sample.st0
             (AnyBool true)).
    + vm_compute. reflexivity.
    + intros r. discriminate.
  - apply (shape_mismatch (Sample.follower AnyNil None 2)
             "a@x.com" 1%positive "tok" Sample.session Sample.st0 AnyNil).
    + vm_compute. reflexivity.
    + intros l. discriminate.
  - apply (shape_mismatch (Sample.follower (AnyOther "int") None 2)
             "a@x.com" 1%positive "tok" Sample.session Sample.st0
             (AnyOther "int")).
    + vm_compute. reflexivity.
    + intros b. discriminate.
Defined.


(** The provider refuses an empty token: the leader and a follower get
    that error. *)
Lemma upstream_error_verbatim_witness :
  (SingleFlightProvider.ValidateGroup Sample.solo "a@x.com" 1%positive ""
     Sample.st0).1 = ([], false, Some Sample.unreachable)
  ∧ (SingleFlightProvider.UserGroups
       (Sample.follower AnyNil (Some Sample.unreachable) 3)
       "a@x.com" 1%positive "tok" Sample.st0).1
    = ([], Some Sample.unreachable).
Proof.
  split.
  - apply (upstream_error_verbatim Sample.solo "a@x.com" 1%positive ""
             Sample.session Sample.st0) with (count := 1).
    + vm_compute. reflexivity.
    + vm_compute. reflexivity.
  - apply (upstream_error_verbatim
             (Sample.follower AnyNil (Some Sample.unreachable) 3)
             "a@x.com" 1%positive "tok" Sample.session Sample.st0)
      with (v := AnyNil) (count := 3).
    vm_compute. reflexivity.
Defined.

(** ** The key that a call hands to the group *)

Section Keys.
Context {U G : Type}.
Implicit Types (p : SingleFlightProvider U G) (st : State U G).
Import SingleFlightProvider.

Lemma issued_key_app st st' k evs :
  trace st' = trace st ++ EvSingleDo k :: evs → issued_key st st' = Some k.
Proof.
  intros H. unfold issued_key. by rewrite H, drop_app_length.
Qed.

Lemma do_trace p endpoint key (fn : Thunk U G) st :
  extends_trace fn →
  ∃ evs, trace (do p endpoint key fn st).2
         = trace st ++ EvSingleDo (Go.Sprintf_slash endpoint key) :: evs.
Proof.
  intros Hfn. rewrite do_unfold; simpl. unfold single_Do.
  destruct (Do_role _ _ _) as [[count|v err count] g']; simpl.
  - destruct (Hfn (mkState (slices st) (upstream st) g'
                     (trace st ++ [EvSingleDo (Go.Sprintf_slash endpoint key)])))
      as [evs Hevs].
    rewrite Hevs; simpl. rewrite <-!(assoc_L (++)); simpl. eauto.
  - rewrite <-!(assoc_L (++)); simpl. eauto.
Qed.

Lemma ValidateGroup_thunk_extends p email s tok :
  extends_trace (ValidateGroup_thunk p email s tok).
Proof.
  intros st. unfold ValidateGroup_thunk, mbind, M_bind, mret, M_ret, call,
    read_slice, sort_Strings; simpl.
  destruct (provider_ValidateGroup _ _ _ _ _) as [[[ig al] [e|]] u']; simpl;
    eauto.
Qed.

Lemma UserGroups_thunk_extends p email s tok :
  extends_trace (UserGroups_thunk p email s tok).
Proof.
  intros st. unfold UserGroups_thunk, mbind, M_bind, mret, M_ret, call,
    read_slice; simpl.
  destruct (provider_UserGroups _ _ _ _ _) as [[gs e] u']; simpl; eauto.
Qed.

(** The key under which each of the two methods calls the group. *)
Lemma ValidateGroup_issued p email s tok st :
  issued_key st (ValidateGroup p email s tok st).2
  = Some (Go.Sprintf_slash "ValidateGroup"
            (Go.Sprintf_colon email (Go.strings_Join (elems st s) ","))).
Proof.
  rewrite ValidateGroup_unfold, ValidateGroup_key_eq; simpl.
  destruct (do_trace p "ValidateGroup"
              (Go.Sprintf_colon email (Go.strings_Join (elems st s) ","))
              _ st (ValidateGroup_thunk_extends p email s tok)) as [evs H].
  by apply issued_key_app with evs.
Qed.

Lemma UserGroups_issued p email s tok st :
  issued_key st (UserGroups p email s tok st).2
  = Some (Go.Sprintf_slash "UserGroups"
            (Go.Sprintf_colon email
               (Go.strings_Join (Go.sort_Strings (elems st s)) ","))).
Proof.
  rewrite UserGroups_unfold, UserGroups_key_eq; simpl.
  destruct (do_trace p "UserGroups"
              (Go.Sprintf_colon email
                 (Go.strings_Join (Go.sort_Strings (elems st s)) ","))
              _ (sort_Strings s st).2
              (UserGroups_thunk_extends p email s tok)) as [evs H].
  by apply issued_key_app with evs.
Qed.

(** The two keys, as functions of the email and of the elements. *)
Lemma colon_key_inj e1 e2 j1 j2 :
  Go.free_of ":" e1 = true → Go.free_of ":" e2 = true →
  Go.Sprintf_colon e1 j1 = Go.Sprintf_colon e2 j2 → e1 = e2 ∧ j1 = j2.
Proof. intros H1 H2 H. by apply (app_sep_inj ":" e1 e2 j1 j2). Qed.

Lemma slash_key_inj endpoint k1 k2 :
  Go.Sprintf_slash endpoint k1 = Go.Sprintf_slash endpoint k2 → k1 = k2.
Proof.
  unfold Go.Sprintf_slash. intros H%(inj (String.app endpoint)).
  by injection H.
Qed.

Lemma group_key_inj endpoint e1 e2 (g1 g2 : list string) :
  Go.free_of ":" e1 = true → Go.free_of ":" e2 = true →
  forallb (Go.plain_name ",") g1 = true →
  forallb (Go.plain_name ",") g2 = true →
  Go.Sprintf_slash endpoint (Go.Sprintf_colon e1 (Go.strings_Join g1 ","))
  = Go.Sprintf_slash endpoint (Go.Sprintf_colon e2 (Go.strings_Join g2 ",")) →
  e1 = e2 ∧ g1 = g2.
Proof.
  intros He1 He2 Hg1 Hg2 H%slash_key_inj.
  apply colon_key_inj in H as [-> H]; [|done..].
  split; [done|]. by apply (Join_inj "," g1 g2).
Qed.

(** C1, as amended: for every email and every state, the key under which
    [UserGroups] calls the group is the same for two group lists that are
    permutations of each other, and the key under which [ValidateGroup]
    calls it is the same for two equal group lists, whatever the tokens,
    which are not part of the key; when the emails contain no colon and
    the group names are non-empty and contain no comma, the keys of both
    methods differ whenever the emails differ or the sets of groups
    differ. *)
Theorem canonical_call_key p1 p2 e1 e2 s1 s2 tok1 tok2 st1 st2 :
  let g1 := elems st1 s1 in
  let g2 := elems st2 s2 in
  let ug1 := issued_key st1 (UserGroups p1 e1 s1 tok1 st1).2 in
  let ug2 := issued_key st2 (UserGroups p2 e2 s2 tok2 st2).2 in
  let vg1 := issued_key st1 (ValidateGroup p1 e1 s1 tok1 st1).2 in
  let vg2 := issued_key st2 (ValidateGroup p2 e2 s2 tok2 st2).2 in
  (e1 = e2 → g1 ≡ₚ g2 → ug1 = ug2)
  ∧ (e1 = e2 → g1 = g2 → vg1 = vg2)
  ∧ (Go.free_of ":" e1 = true → Go.free_of ":" e2 = true →
     forallb (Go.plain_name ",") g1 = true →
     forallb (Go.plain_name ",") g2 = true →
     e1 ≠ e2 ∨ (list_to_set g1 : gset string) ≠ list_to_set g2 →
     ug1 ≠ ug2 ∧ vg1 ≠ vg2).
Proof.
  cbv zeta.
  rewrite !UserGroups_issued, !ValidateGroup_issued.
  split; [|split].
  - intros -> Hperm. by rewrite (sort_Strings_perm _ _ Hperm).
  - by intros -> ->.
  - intros He1 He2 Hg1 Hg2 Hne.
    split; intros H; apply (inj Some) in H.
    + apply group_key_inj in H as [-> H];
        [|by rewrite ?sort_Strings_forallb..].
      destruct Hne as [?|Hne]; [done|]. apply Hne.
      by rewrite <-(sort_Strings_set (elems st1 s1)), H, sort_Strings_set.
    + apply group_key_inj in H as [-> H]; [|done..].
      destruct Hne as [?|Hne]; [done|]. apply Hne. by rewrite H.
Qed.

End Keys.

(** Two calls of [UserGroups] with the groups in different orders and with
    different tokens call the group under one key; two calls for different
    emails call it under different keys. *)
Lemma canonical_call_key_witness :
  issued_key Sample.st0
    (SingleFlightProvider.UserGroups Sample.solo "a@x.com" 1%positive
       "token-1" Sample.st0).2
  = issued_key Sample.st0
      (SingleFlightProvider.UserGroups Sample.solo "a@x.com" 2%positive
         "token-2" Sample.st0).2
  ∧ issued_key Sample.st0
      (SingleFlightProvider.UserGroups Sample.solo "a@x.com" 1%positive
         "token-1" Sample.st0).2
    ≠ issued_key Sample.st0
        (SingleFlightProvider.UserGroups Sample.solo "b@x.com" 1%positive
           "token-1" Sample.st0).2.
Proof.
  split.
  - apply (canonical_call_key Sample.solo Sample.solo "a@x.com" "a@x.com"
             1%positive 2%positive "token-1" "token-2" Sample.st0 Sample.st0).
    + reflexivity.
    + vm_compute. apply perm_swap.
  - apply (canonical_call_key Sample.solo Sample.solo "a@x.com" "b@x.com"
             1%positive 1%positive "token-1" "token-1" Sample.st0 Sample.st0).
    + vm_compute. reflexivity.
    + vm_compute. reflexivity.
    + vm_compute. reflexivity.
    + vm_compute. reflexivity.
    + left. discriminate.
Defined.

(** C1 as stated fails: the tokens differ and the keys are the same. *)
Lemma canonical_call_key_counterexample :
  let k1 := issued_key Sample.st0
              (SingleFlightProvider.UserGroups Sample.solo "a@x.com"
                 1%positive "token-1" Sample.st0).2 in
  let k2 := issued_key Sample.st0
              (SingleFlightProvider.UserGroups Sample.solo "a@x.com"
                 1%positive "token-2" Sample.st0).2 in
  ¬ ("token-1" ≠ "token-2" → k1 ≠ k2).
Proof.
  cbv zeta. intros H. apply H; [discriminate|]. vm_compute. reflexivity.
Qed.

(** [ValidateGroup] derives its key before its thunk sorts the slice: the
    same groups in two orders give two keys. *)
Example ValidateGroup_key_follows_order :
  issued_key Sample.st0
    (SingleFlightProvider.ValidateGroup Sample.solo "a@x.com" 1%positive
       "token-1" Sample.st0).2 = Some "ValidateGroup/a@x.com:g2,g1"
  ∧ issued_key Sample.st0
      (SingleFlightProvider.ValidateGroup Sample.solo "a@x.com" 2%positive
         "token-1" Sample.st0).2 = Some "ValidateGroup/a@x.com:g1,g2".
Proof. vm_compute. done. Qed.

(** ** The effects of deriving a key *)

Section Effects.
Context {U G : Type}.
Implicit Types (p : SingleFlightProvider U G) (st : State U G).
Import SingleFlightProvider.

Lemma sort_Strings_idem l : Go.sort_Strings (Go.sort_Strings l) = Go.sort_Strings l.
Proof. apply sort_Strings_perm, sort_Strings_Permutation. Qed.

Lemma alter_sort_idem s (m : gmap loc (list string)) :
  alter Go.sort_Strings s (alter Go.sort_Strings s m)
  = alter Go.sort_Strings s m.
Proof.
  apply map_eq. intros i. destruct (decide (i = s)) as [->|Hne].
  - rewrite !lookup_alter_eq. destruct (m !! s); simpl; [|done].
    by rewrite sort_Strings_idem.
  - by rewrite !lookup_alter_ne.
Qed.

(** What a method does to the store of the slices. *)
Lemma ValidateGroup_slices p email s tok st :
  slices (ValidateGroup p email s tok st).2 = slices st
  ∨ slices (ValidateGroup p email s tok st).2
    = alter Go.sort_Strings s (slices st).
Proof.
  rewrite ValidateGroup_unfold, ValidateGroup_key_eq, do_unfold; simpl.
  unfold single_Do.
  destruct (Do_role _ _ _) as [[count|v err count] g']; simpl; [|by left].
  right. unfold ValidateGroup_thunk, mbind, M_bind, mret, M_ret, call,
    read_slice, sort_Strings; simpl.
  by destruct (provider_ValidateGroup _ _ _ _ _) as [[[ig al] [e|]] u'].
Qed.

Lemma UserGroups_slices p email s tok st :
  slices (UserGroups p email s tok st).2
  = alter Go.sort_Strings s (slices st).
Proof.
  rewrite UserGroups_unfold, UserGroups_key_eq, do_unfold; simpl.
  unfold single_Do.
  destruct (Do_role _ _ _) as [[count|v err count] g']; simpl; [|done].
  unfold UserGroups_thunk, mbind, M_bind, mret, M_ret, call,
    read_slice; simpl.
  by destruct (provider_UserGroups _ _ _ _ _) as [[gs e] u'].
Qed.

Lemma elems_alter_sort st st' s :
  slices st' = alter Go.sort_Strings s (slices st) →
  elems st' s ≡ₚ elems st s
  ∧ ∀ s', s' ≠ s → slices st' !! s' = slices st !! s'.
Proof.
  intros H. unfold elems. rewrite H. split.
  - rewrite lookup_alter_eq. destruct (slices st !! s); simpl; [|done].
    apply sort_Strings_Permutation.
  - intros s' Hne. by rewrite lookup_alter_ne.
Qed.

End Effects.

(** C9 as stated fails: after [UserGroups] has derived its key, the
    caller's slice [g2, g1] holds [g1, g2]. *)
Lemma key_derivation_effects_counterexample :
  let after := (SingleFlightProvider.UserGroups_key "a@x.com" 1%positive
                  Sample.st0).2 in
  elems Sample.st0 1%positive = ["g2"; "g1"]
  ∧ elems after 1%positive = ["g1"; "g2"]
  ∧ slices after ≠ slices Sample.st0.
Proof.
  cbv zeta. split; [by vm_compute|]. split; [by vm_compute|].
  intros H.
  assert (E : elems (SingleFlightProvider.UserGroups_key "a@x.com"
                       1%positive Sample.st0).2 1%positive
              = elems Sample.st0 1%positive)
    by (unfold elems; by rewrite H).
  vm_compute in E. discriminate E.
Qed.

(** ** The validator runner *)

Section Runner.
Context {W : Type}.
Implicit Types (validators : list (Options.Validator W)) (w : W).
Import Options.

Lemma verdicts_length validators session w :
  length (verdicts validators session w) = length validators.
Proof.
  revert w. induction validators as [|v vs IH]; intros w; simpl; [done|].
  by rewrite IH.
Qed.

(** The loop, from any position and with any errors collected so far. *)
Lemma RunValidators_loop_spec validators session i acc w calls :
  RunValidators_loop i validators session acc (w, calls)
  = (acc ++ omap id (verdicts validators session w),
     (final_world validators session w,
      calls ++ seq i (length validators))).
Proof.
  revert i acc w calls.
  induction validators as [|v vs IH]; intros i acc w calls; simpl.
  - by rewrite !app_nil_r.
  - unfold invoke; simpl.
    destruct (Validate v session w) as [[err|] w']; simpl;
      rewrite IH; simpl; rewrite <-?(assoc_L (++)); done.
Qed.

(** C6: [RunValidators] calls every validator once, in the order of the
    list, whatever the validators answer, and returns the errors of the
    validators that failed, one for each, in the order of the validators;
    the result is empty if and only if every validator passed. *)
Theorem RunValidators_complete validators session w calls :
  let r := RunValidators validators session (w, calls) in
  let answers := verdicts validators session w in
  length answers = length validators
  ∧ r.2.2 = calls ++ seq 0 (length validators)
  ∧ r.2.1 = final_world validators session w
  ∧ r.1 = omap id answers
  ∧ length r.1 = length (filter is_Some answers)
  ∧ (r.1 = [] ↔ Forall (λ a, a = None) answers).
Proof.
  cbv zeta. unfold RunValidators. rewrite RunValidators_loop_spec; simpl.
  split; [apply verdicts_length|]. repeat split; try done.
  - induction (verdicts validators session w) as [|[e|] l IH]; simpl; [done|..].
    + f_equal. exact IH.
    + rewrite filter_cons_False by (by intros [??]). exact IH.
  - induction (verdicts validators session w) as [|[e|] l IH]; simpl;
      [by constructor|done|].
    intros H. constructor; [done|auto].
  - induction 1 as [|a l -> _ IH]; simpl; done.
Qed.

Variable IsWithinGracePeriod : loc → W → bool.

Lemma grace_loop_spec errs acc (st : W * list nat) :
  grace_loop IsWithinGracePeriod errs acc st
  = (acc ++ filter (λ e, suppressed IsWithinGracePeriod st.1 e = false) errs,
     st).
Proof.
  revert acc. induction errs as [|err errs IH]; intros acc; simpl.
  - by rewrite app_nil_r.
  - destruct err as [msg|e|typ msg]; simpl.
    + rewrite IH, filter_cons_True by done. by rewrite <-(assoc_L (++)).
    + destruct (IsWithinGracePeriod e st.1) eqn:Hin.
      * rewrite IH, filter_cons_False; [done|]. simpl. by rewrite Hin.
      * rewrite IH, filter_cons_True by (simpl; by rewrite Hin).
        by rewrite <-(assoc_L (++)).
    + rewrite IH, filter_cons_True by done. by rewrite <-(assoc_L (++)).
Qed.

(** C7: [RunValidatorsWithGracePeriod] returns the errors of
    [RunValidators], in the same order, without those that are group
    validation errors whose grace-window check answers true at that time:
    an error of [RunValidators] is dropped if and only if it is suppressed,
    and every other error is returned as it is. *)
Theorem RunValidatorsWithGracePeriod_filter validators session st :
  let all := RunValidators validators session st in
  let r := RunValidatorsWithGracePeriod IsWithinGracePeriod validators
             session st in
  let drop e := suppressed IsWithinGracePeriod all.2.1 e = true in
  r.2 = all.2
  ∧ r.1 = filter (λ e, ¬ drop e) all.1
  ∧ r.1 `sublist_of` all.1
  ∧ (∀ e, e ∈ all.1 → (e ∉ r.1 ↔ drop e))
  ∧ (∀ e, drop e ↔ ∃ ptr, e = GroupValidationErrorPtr ptr
                          ∧ IsWithinGracePeriod ptr all.2.1 = true).
Proof.
  cbv zeta. unfold RunValidatorsWithGracePeriod; simpl.
  rewrite grace_loop_spec; simpl.
  set (all := RunValidators validators session st).
  assert (E : filter (λ e, suppressed IsWithinGracePeriod all.2.1 e = false)
                all.1
              = filter (λ e, ¬ suppressed IsWithinGracePeriod all.2.1 e = true)
                  all.1).
  { apply list_filter_iff. intros e.
    by destruct (suppressed IsWithinGracePeriod all.2.1 e). }
  rewrite E. repeat split; try done.
  - apply sublist_filter.
  - intros Hnot. destruct (suppressed _ _ e) eqn:Hs; [done|].
    destruct Hnot. apply list_elem_of_filter. split; [|done].
    by rewrite Hs.
  - intros Hs [Hn _]%list_elem_of_filter. done.
  - destruct e as [msg|ptr|typ msg]; simpl; try done. eauto.
  - intros (ptr & -> & H). done.
Qed.

End Runner.

(** Two validators, the first fails and the second passes: one error, the
    first one's; both were called. *)
Example RunValidators_first_fails :
  Options.RunValidators
    [Sample.group_validator 5%positive; Sample.email_validator] Sample.session
    (0, [])
  = ([GroupValidationErrorPtr 5%positive], (1, [0%nat; 1%nat])).
Proof. vm_compute. reflexivity. Qed.

Example RunValidators_all_pass :
  (Options.RunValidators [Sample.email_validator; Sample.email_validator]
     Sample.session (0, [])).1 = [].
Proof. vm_compute. reflexivity. Qed.

(** A group validation error is dropped within its grace window and
    returned outside of it; the other error is returned in both cases. *)
Example RunValidatorsWithGracePeriod_window :
  (Options.RunValidatorsWithGracePeriod (Sample.grace_until 10)
     [Sample.group_validator 5%positive; Sample.email_validator] Sample.nobody
     (0, [])).1 = [Options.ErrInvalidEmailAddress]
  ∧ (Options.RunValidatorsWithGracePeriod (Sample.grace_until 10)
       [Sample.group_validator 5%positive; Sample.email_validator] Sample.nobody
       (10, [])).1
    = [GroupValidationErrorPtr 5%positive; Options.ErrInvalidEmailAddress].
Proof. vm_compute. done. Qed.

(** ** The single-flight group *)

Section Flights.
Context {W : Type}.
Implicit Types (s : Singleflight.GroupState W) (tr : list (Singleflight.Step W)).
Import Singleflight.

Lemma run_app tr tr' s :
  run (tr ++ tr') s = run tr s ≫= run tr'.
Proof.
  revert s. induction tr as [|a tr IH]; intros s; simpl; [done|].
  destruct (step s a); simpl; [apply IH|done].
Qed.

Lemma executions_snoc key s k c :
  filter (λ x : string * caller, x.1 = key) (executed s ++ [(k, c)])
  = executions key s ++ (if decide (k = key) then [(k, c)] else []).
Proof.
  unfold executions. rewrite filter_app. reflexivity.
Qed.

(** While no execution for [key] completes, the in-flight call of [key]
    collects the callers that arrive for it, and no work is executed for
    [key]. *)
Lemma run_in_flight key tr s0 s1 :
  run tr s0 = Some s1 →
  in_flight_throughout key tr = true →
  index s1 !! key
  = foldl (λ f cw, Some (join_call f cw)) (index s0 !! key) (arrivals key tr)
  ∧ executions key s1 = executions key s0.
Proof.
  revert s0. induction tr as [|a tr IH]; intros s0 Hrun Hfl; simpl in *.
  - by injection Hrun as ->.
  - destruct (step s0 a) as [s'|] eqn:Hstep; [|done].
    apply andb_prop in Hfl as [Ha Hfl].
    destruct (IH _ Hrun Hfl) as [Hidx Hex]. rewrite Hidx, Hex.
    destruct a as [c k w|k]; simpl in *.
    + destruct (decide (k = key)) as [->|Hne]; simpl.
      * destruct (index s0 !! key) as [f|] eqn:Hf;
          injection Hstep as <-; simpl;
          by rewrite lookup_insert_eq.
      * destruct (index s0 !! k) as [f|] eqn:Hf;
          injection Hstep as <-; simpl;
          by rewrite lookup_insert_ne.
    + apply negb_true_iff, bool_decide_eq_false in Ha.
      destruct (index s0 !! k) as [f|] eqn:Hf; [|done].
      injection Hstep as <-; simpl. rewrite lookup_delete_ne by done.
      split; [done|]. unfold executions at 1; simpl.
      rewrite executions_snoc. rewrite decide_False by done.
      by rewrite app_nil_r.
Qed.

Lemma foldl_join_call (f : InFlightCall W) (rest : list (caller * Work W)) :
  foldl (λ f cw, Some (join_call f cw)) (Some f) rest
  = Some (mkInFlightCall (call_leader f) (call_work f)
            (call_joiners f ++ rest.*1)).
Proof.
  revert f. induction rest as [|cw rest IH]; intros f; simpl.
  - rewrite app_nil_r. by destruct f.
  - rewrite IH; simpl. by rewrite <-(assoc_L (++)).
Qed.

(** C2: when [N] callers arrive for [key] while the execution of the first
    one is in flight, the run can complete it; the work is then executed
    once, and it is the work of the first caller; each of the [N] callers
    is handed the result and the error of that one execution, and the
    count [N]; the key is removed, so that a caller that arrives afterwards
    leads an execution of its own work and is handed its result. *)
Theorem coalesced_execution key tr s0 s1 c1 w1 rest :
  index s0 !! key = None →
  run tr s0 = Some s1 →
  in_flight_throughout key tr = true →
  arrivals key tr = (c1, w1) :: rest →
  let callers := c1 :: rest.*1 in
  let N := Z.of_nat (length (arrivals key tr)) in
  let out := w1 (world s1) in
  ∃ s2,
    run (tr ++ [Complete key]) s0 = Some s2
    ∧ executions key s2 = executions key s0 ++ [(key, c1)]
    ∧ world s2 = out.2
    ∧ delivered s2
      = delivered s1 ++ map (λ c, mkDelivery c out.1.1 out.1.2 N) callers
    ∧ index s2 !! key = None
    ∧ ∀ c' w', ∃ s3,
        run [Arrive c' key w'; Complete key] s2 = Some s3
        ∧ executions key s3 = executions key s2 ++ [(key, c')]
        ∧ world s3 = (w' (world s2)).2
        ∧ delivered s3
          = delivered s2
            ++ [mkDelivery c' (w' (world s2)).1.1 (w' (world s2)).1.2 1].
Proof.
  intros Hfree Hrun Hfl Harr. cbv zeta.
  destruct (run_in_flight key tr s0 s1 Hrun Hfl) as [Hidx Hex].
  rewrite Hfree, Harr in Hidx. simpl in Hidx.
  rewrite foldl_join_call in Hidx; simpl in Hidx.
  set (out := w1 (world s1)).
  set (N := Z.of_nat (length (arrivals key tr))).
  set (s2 := mkGroupState (delete key (index s1)) out.2
               (delivered s1
                ++ map (λ c, mkDelivery c out.1.1 out.1.2 N) (c1 :: rest.*1))
               (executed s1 ++ [(key, c1)])).
  assert (Hex2 : executions key s2 = executions key s0 ++ [(key, c1)]).
  { unfold executions at 1. unfold s2; simpl.
    rewrite executions_snoc, decide_True by done. by rewrite Hex. }
  exists s2. split.
  { rewrite run_app, Hrun; simpl. rewrite Hidx; simpl.
    unfold s2, N, out. rewrite Harr; simpl. by rewrite length_fmap. }
  split; [exact Hex2|]. split; [done|]. split; [done|].
  split. { unfold s2; simpl. by rewrite lookup_delete_eq. }
  intros c' w'.
  exists (mkGroupState (delete key (<[key := mkInFlightCall c' w' [c']]>
                                      (index s2)))
            (w' (world s2)).2
            (delivered s2
             ++ [mkDelivery c' (w' (world s2)).1.1 (w' (world s2)).1.2 1])
            (executed s2 ++ [(key, c')])).
  split.
  { simpl. rewrite lookup_delete_eq; simpl.
    by rewrite lookup_insert_eq. }
  split; [|done].
  change (filter (λ x : string * caller, x.1 = key)
            (executed s2 ++ [(key, c')])
          = executions key s2 ++ [(key, c')]).
  by rewrite executions_snoc, decide_True.
Qed.

End Flights.

(** Three callers of one key, a fourth of another key in between: one
    execution, the same answer and the count three for the three. *)
Lemma coalesced_execution_witness :
  ∃ s2,
    Singleflight.run (Sample.burst ++ [Singleflight.Complete "k"]) Sample.idle
      = Some s2
    ∧ Singleflight.executions "k" s2 = [("k", 1%nat)]
    ∧ Singleflight.world s2 = 1%nat
    ∧ Singleflight.delivered s2
      = [Singleflight.mkDelivery 1%nat (AnyBool true) None 3;
         Singleflight.mkDelivery 3%nat (AnyBool true) None 3;
         Singleflight.mkDelivery 4%nat (AnyBool true) None 3].
Proof.
  destruct (coalesced_execution "k" Sample.burst Sample.idle
              (default Sample.idle (Singleflight.run Sample.burst Sample.idle))
              1%nat Sample.check [(3%nat, Sample.check); (4%nat, Sample.check)])
    as (s2 & H1 & H2 & H3 & H4 & _).
  - reflexivity.
  - reflexivity.
  - reflexivity.
  - reflexivity.
  - exists s2. split; [exact H1|]. split; [exact H2|]. split; [exact H3|].
    exact H4.
Defined.

(** * Further properties of the methods *)

(** ** The calls that a coalesced method makes *)

Section Calls.
Context {U G : Type}.
Implicit Types (p : SingleFlightProvider U G) (st : State U G).
Import SingleFlightProvider.

Lemma new_events_app st st' evs :
  trace st' = trace st ++ evs → new_events st st' = evs.
Proof. intros H. unfold new_events. by rewrite H, drop_app_length. Qed.

(** The state that [do] leaves, by the role of the caller. *)
Lemma do_state p endpoint key (fn : Thunk U G) st :
  let k := Go.Sprintf_slash endpoint key in
  let r := Do_role (single p) k (flights st) in
  let st1 := mkState (slices st) (upstream st) r.2
                     (trace st ++ [EvSingleDo k]) in
  let st2 := match r.1 with Leads _ => (fn st1).2 | Joins _ _ _ => st1 end in
  (do p endpoint key fn st).2
  = mkState (slices st2) (upstream st2) (flights st2)
            (trace st2 ++ metric_events endpoint (role_count r.1)).
Proof.
  cbv zeta. rewrite do_unfold; cbv zeta. unfold single_Do, metric_events.
  destruct (Do_role _ _ _) as [[count|v err count] g']; reflexivity.
Qed.

(** The state that each thunk leaves. *)
Lemma ValidateGroup_thunk_state p email s tok st :
  let sorted := Go.sort_Strings (elems st s) in
  let up := provider_ValidateGroup (provider p) email sorted tok
              (upstream st) in
  (ValidateGroup_thunk p email s tok st).2
  = mkState (alter Go.sort_Strings s (slices st)) up.2 (flights st)
      (trace st ++ [EvProvider "ValidateGroup" (email :: tok :: sorted)]).
Proof.
  cbv zeta. rewrite <-elems_sort_Strings.
  unfold ValidateGroup_thunk; unfold_M.
  unfold call, read_slice, sort_Strings, elems; simpl.
  by destruct (provider_ValidateGroup _ _ _ _ _) as [[[ig al] [e|]] u'].
Qed.

Lemma UserGroups_thunk_state p email s tok st :
  let up := provider_UserGroups (provider p) email (elems st s) tok
              (upstream st) in
  (UserGroups_thunk p email s tok st).2
  = mkState (slices st) up.2 (flights st)
      (trace st ++ [EvProvider "UserGroups" (email :: tok :: elems st s)]).
Proof.
  cbv zeta. unfold UserGroups_thunk; unfold_M.
  unfold call, read_slice, elems; simpl.
  by destruct (provider_UserGroups _ _ _ _ _) as [[gs e] u'].
Qed.

Lemma ValidateSessionToken_thunk_state p sess st :
  (ValidateSessionToken_thunk p sess st).2
  = mkState (slices st)
      (provider_ValidateSessionToken (provider p) sess (upstream st)).2
      (flights st)
      (trace st ++ [EvProvider "ValidateSessionToken" [AccessToken sess]]).
Proof. reflexivity. Qed.

Lemma RefreshSessionToken_thunk_state p sess st :
  (RefreshSessionToken_thunk p sess st).2
  = mkState (slices st)
      (provider_RefreshSessionToken (provider p) sess (upstream st)).2
      (flights st)
      (trace st ++ [EvProvider "RefreshSessionToken" [RefreshToken sess]]).
Proof.
  unfold RefreshSessionToken_thunk; unfold_M. unfold call; simpl.
  by destruct (provider_RefreshSessionToken _ _ _) as [[b e] u'].
Qed.

(** The state that each coalesced method leaves is the state that its call
    of [do] leaves. *)
Lemma ValidateGroup_state p email s tok st :
  (ValidateGroup p email s tok st).2
  = (do p "ValidateGroup"
        (Go.Sprintf_colon email (Go.strings_Join (elems st s) ","))
        (ValidateGroup_thunk p email s tok) st).2.
Proof. by rewrite ValidateGroup_unfold, ValidateGroup_key_eq. Qed.

Lemma UserGroups_state p email s tok st :
  (UserGroups p email s tok st).2
  = (do p "UserGroups"
        (Go.Sprintf_colon email
           (Go.strings_Join (Go.sort_Strings (elems st s)) ","))
        (UserGroups_thunk p email s tok) (sort_Strings s st).2).2.
Proof. by rewrite UserGroups_unfold, UserGroups_key_eq. Qed.

Lemma ValidateSessionToken_state p sess st :
  (ValidateSessionToken p sess st).2
  = (do p "ValidateSessionToken" (AccessToken sess)
        (ValidateSessionToken_thunk p sess) st).2.
Proof. by rewrite ValidateSessionToken_unfold. Qed.

Lemma RefreshSessionToken_state p sess st :
  (RefreshSessionToken p sess st).2
  = (do p "RefreshSessionToken" (RefreshToken sess)
        (RefreshSessionToken_thunk p sess) st).2.
Proof. by rewrite RefreshSessionToken_unfold. Qed.

(** X1: every coalesced method calls the group once, under the key of its own
    endpoint; it then calls the provider once if it leads, with the sorted
    groups for the two group methods, and not at all if it joins; and it
    sends the metric of its endpoint when the count is positive.  It calls
    nothing else. *)
Theorem coalesced_method_calls p email s tok sess st :
  let role_of endpoint key :=
    (Do_role (single p) (Go.Sprintf_slash endpoint key) (flights st)).1 in
  let sorted := Go.sort_Strings (elems st s) in
  let key_vg := Go.Sprintf_colon email (Go.strings_Join (elems st s) ",") in
  let key_ug := Go.Sprintf_colon email (Go.strings_Join sorted ",") in
  new_events st (ValidateGroup p email s tok st).2
  = EvSingleDo (Go.Sprintf_slash "ValidateGroup" key_vg)
    :: provider_events (role_of "ValidateGroup" key_vg)
         (EvProvider "ValidateGroup" (email :: tok :: sorted))
    ++ metric_events "ValidateGroup"
         (role_count (role_of "ValidateGroup" key_vg))
  ∧ new_events st (UserGroups p email s tok st).2
    = EvSingleDo (Go.Sprintf_slash "UserGroups" key_ug)
      :: provider_events (role_of "UserGroups" key_ug)
           (EvProvider "UserGroups" (email :: tok :: sorted))
      ++ metric_events "UserGroups"
           (role_count (role_of "UserGroups" key_ug))
  ∧ new_events st (ValidateSessionToken p sess st).2
    = EvSingleDo (Go.Sprintf_slash "ValidateSessionToken" (AccessToken sess))
      :: provider_events
           (role_of "ValidateSessionToken" (AccessToken sess))
           (EvProvider "ValidateSessionToken" [AccessToken sess])
      ++ metric_events "ValidateSessionToken"
           (role_count (role_of "ValidateSessionToken" (AccessToken sess)))
  ∧ new_events st (RefreshSessionToken p sess st).2
    = EvSingleDo (Go.Sprintf_slash "RefreshSessionToken" (RefreshToken sess))
      :: provider_events
           (role_of "RefreshSessionToken" (RefreshToken sess))
           (EvProvider "RefreshSessionToken" [RefreshToken sess])
      ++ metric_events "RefreshSessionToken"
           (role_count (role_of "RefreshSessionToken" (RefreshToken sess))).
Proof.
  cbv zeta. repeat split; apply new_events_app.
  - rewrite ValidateGroup_state, do_state; cbv zeta.
    destruct (Do_role _ _ _).1 as [count|v err count];
      cbn [trace provider_events role_count].
    + rewrite ValidateGroup_thunk_state; cbn [trace elems slices].
      by rewrite <-!(assoc_L (++)).
    + by rewrite <-!(assoc_L (++)).
  - rewrite UserGroups_state, do_state; cbv zeta.
    change (flights (sort_Strings s st).2) with (flights st).
    change (trace (sort_Strings s st).2) with (trace st).
    destruct (Do_role _ _ _).1 as [count|v err count];
      cbn [trace provider_events role_count].
    + rewrite UserGroups_thunk_state; cbn [trace].
      change (elems (mkState (slices (sort_Strings s st).2) ?a ?b ?c) s)
        with (elems (sort_Strings s st).2 s).
      rewrite elems_sort_Strings. by rewrite <-!(assoc_L (++)).
    + by rewrite <-!(assoc_L (++)).
  - rewrite ValidateSessionToken_state, do_state; cbv zeta.
    destruct (Do_role _ _ _).1 as [count|v err count];
      cbn [trace provider_events role_count].
    + rewrite ValidateSessionToken_thunk_state; cbn [trace].
      by rewrite <-!(assoc_L (++)).
    + by rewrite <-!(assoc_L (++)).
  - rewrite RefreshSessionToken_state, do_state; cbv zeta.
    destruct (Do_role _ _ _).1 as [count|v err count];
      cbn [trace provider_events role_count].
    + rewrite RefreshSessionToken_thunk_state; cbn [trace].
      by rewrite <-!(assoc_L (++)).
    + by rewrite <-!(assoc_L (++)).
Qed.

End Calls.

(** ** What a leader and a follower get *)

Section Roles.
Context {U G : Type}.
Implicit Types (p : SingleFlightProvider U G) (st : State U G).
Import SingleFlightProvider.

(** What each thunk boxes. *)
Lemma ValidateGroup_thunk_value p email s tok st :
  let up := provider_ValidateGroup (provider p) email
              (Go.sort_Strings (elems st s)) tok (upstream st) in
  (ValidateGroup_thunk p email s tok st).1
  = match up.1 with
    | (inGroups, allowed, None) =>
        (AnyResponsePtr (mkResponse inGroups allowed), None)
    | (_, _, Some e) => (AnyNil, Some e)
    end.
Proof.
  cbv zeta. rewrite <-elems_sort_Strings.
  unfold ValidateGroup_thunk; unfold_M.
  unfold call, read_slice, sort_Strings, elems; simpl.
  by destruct (provider_ValidateGroup _ _ _ _ _) as [[[ig al] [e|]] u'].
Qed.

Lemma UserGroups_thunk_value p email s tok st :
  let up := provider_UserGroups (provider p) email (elems st s) tok
              (upstream st) in
  (UserGroups_thunk p email s tok st).1 = (AnyStrings up.1.1, up.1.2).
Proof.
  cbv zeta. unfold UserGroups_thunk; unfold_M.
  unfold call, read_slice, elems; simpl.
  by destruct (provider_UserGroups _ _ _ _ _) as [[gs e] u'].
Qed.

Lemma RefreshSessionToken_thunk_value p sess st :
  let up := provider_RefreshSessionToken (provider p) sess (upstream st) in
  (RefreshSessionToken_thunk p sess st).1 = (AnyBool up.1.1, up.1.2).
Proof.
  cbv zeta. unfold RefreshSessionToken_thunk; unfold_M. unfold call; simpl.
  by destruct (provider_RefreshSessionToken _ _ _) as [[b e] u'].
Qed.

(** The state that [do] leaves to a leader and to a follower. *)
Lemma do_state_leads p endpoint key (fn : Thunk U G) st count :
  (Do_role (single p) (Go.Sprintf_slash endpoint key) (flights st)).1
    = Leads count →
  let st1 := mkState (slices st) (upstream st)
               (Do_role (single p) (Go.Sprintf_slash endpoint key)
                  (flights st)).2
               (trace st ++ [EvSingleDo (Go.Sprintf_slash endpoint key)]) in
  slices (do p endpoint key fn st).2 = slices (fn st1).2
  ∧ upstream (do p endpoint key fn st).2 = upstream (fn st1).2.
Proof. intros H. rewrite do_state; cbv zeta. by rewrite H. Qed.

Lemma do_state_joins p endpoint key (fn : Thunk U G) st v err count :
  (Do_role (single p) (Go.Sprintf_slash endpoint key) (flights st)).1
    = Joins v err count →
  slices (do p endpoint key fn st).2 = slices st
  ∧ upstream (do p endpoint key fn st).2 = upstream st.
Proof. intros H. rewrite do_state; cbv zeta. by rewrite H. Qed.

(** X2: a caller that leads gets what the provider's method returns, on the
    sorted groups for the two group methods, with zero values beside an
    error; the provider is left in the state its method leaves, and the
    caller's slice is sorted. *)
Theorem leader_gets_provider_result p email s tok sess st :
  let role_of endpoint key :=
    (Do_role (single p) (Go.Sprintf_slash endpoint key) (flights st)).1 in
  let sorted := Go.sort_Strings (elems st s) in
  let key_vg := Go.Sprintf_colon email (Go.strings_Join (elems st s) ",") in
  let key_ug := Go.Sprintf_colon email (Go.strings_Join sorted ",") in
  let up_vg :=
    provider_ValidateGroup (provider p) email sorted tok (upstream st) in
  let up_ug :=
    provider_UserGroups (provider p) email sorted tok (upstream st) in
  let up_vs :=
    provider_ValidateSessionToken (provider p) sess (upstream st) in
  let up_rt :=
    provider_RefreshSessionToken (provider p) sess (upstream st) in
  (∀ count,
     role_of "ValidateGroup" key_vg = Leads count →
     let r := ValidateGroup p email s tok st in
     r.1 = match up_vg.1 with
           | (inGroups, allowed, None) => (inGroups, allowed, None)
           | (_, _, Some e) => ([], false, Some e)
           end
     ∧ upstream r.2 = up_vg.2
     ∧ slices r.2 = alter Go.sort_Strings s (slices st))
  ∧ (∀ count,
       role_of "UserGroups" key_ug = Leads count →
       let r := UserGroups p email s tok st in
       r.1 = match up_ug.1 with
             | (groups, None) => (groups, None)
             | (_, Some e) => ([], Some e)
             end
       ∧ upstream r.2 = up_ug.2
       ∧ slices r.2 = alter Go.sort_Strings s (slices st))
  ∧ (∀ count,
       role_of "ValidateSessionToken" (AccessToken sess) = Leads count →
       let r := ValidateSessionToken p sess st in
       r.1 = up_vs.1 ∧ upstream r.2 = up_vs.2 ∧ slices r.2 = slices st)
  ∧ (∀ count,
       role_of "RefreshSessionToken" (RefreshToken sess) = Leads count →
       let r := RefreshSessionToken p sess st in
       r.1 = match up_rt.1 with
             | (ok, None) => (ok, None)
             | (_, Some e) => (false, Some e)
             end
       ∧ upstream r.2 = up_rt.2 ∧ slices r.2 = slices st).
Proof.
  cbv zeta. repeat split.
  - rewrite ValidateGroup_result, (do_leads _ _ _ _ _ _ H).
    rewrite ValidateGroup_thunk_value; cbn [upstream elems slices].
    fold (elems st s).
    by destruct (provider_ValidateGroup _ _ _ _ _) as [[[ig al] [e|]] u'].
  - rewrite ValidateGroup_state.
    destruct (do_state_leads _ _ _ (ValidateGroup_thunk p email s tok) _ _ H)
      as [_ ->].
    by rewrite ValidateGroup_thunk_state.
  - rewrite ValidateGroup_state.
    destruct (do_state_leads _ _ _ (ValidateGroup_thunk p email s tok) _ _ H)
      as [-> _].
    by rewrite ValidateGroup_thunk_state.
  - rewrite UserGroups_result.
    rewrite (do_leads p _ _ _ (sort_Strings s st).2 count H).
    rewrite UserGroups_thunk_value.
    change (elems (mkState (slices (sort_Strings s st).2) ?a ?b ?c) s)
      with (elems (sort_Strings s st).2 s).
    rewrite elems_sort_Strings; cbn [upstream].
    change (upstream (sort_Strings s st).2) with (upstream st).
    by destruct (provider_UserGroups _ _ _ _ _) as [[gs [e|]] u'].
  - rewrite UserGroups_state.
    destruct (do_state_leads p _ _ (UserGroups_thunk p email s tok)
                (sort_Strings s st).2 count H) as [_ ->].
    rewrite UserGroups_thunk_state; cbn [upstream].
    change (elems (mkState (slices (sort_Strings s st).2) ?a ?b ?c) s)
      with (elems (sort_Strings s st).2 s).
    by rewrite elems_sort_Strings.
  - rewrite UserGroups_state.
    destruct (do_state_leads p _ _ (UserGroups_thunk p email s tok)
                (sort_Strings s st).2 count H) as [-> _].
    by rewrite UserGroups_thunk_state.
  - rewrite ValidateSessionToken_result, (do_leads _ _ _ _ _ _ H).
    by rewrite ValidateSessionToken_thunk_value.
  - rewrite ValidateSessionToken_state.
    by destruct (do_state_leads _ _ _ (ValidateSessionToken_thunk p sess)
                   _ _ H) as [_ ->].
  - rewrite ValidateSessionToken_state.
    by destruct (do_state_leads _ _ _ (ValidateSessionToken_thunk p sess)
                   _ _ H) as [-> _].
  - rewrite RefreshSessionToken_result, (do_leads _ _ _ _ _ _ H).
    rewrite RefreshSessionToken_thunk_value; cbn [upstream].
    by destruct (provider_RefreshSessionToken _ _ _) as [[b [e|]] u'].
  - rewrite RefreshSessionToken_state.
    destruct (do_state_leads _ _ _ (RefreshSessionToken_thunk p sess)
                _ _ H) as [_ ->].
    by rewrite RefreshSessionToken_thunk_state.
  - rewrite RefreshSessionToken_state.
    destruct (do_state_leads _ _ _ (RefreshSessionToken_thunk p sess)
                _ _ H) as [-> _].
    by rewrite RefreshSessionToken_thunk_state.
Qed.

(** X3: a caller that joins gets the values that the group hands it, and the
    provider is left as it was; [ValidateGroup] then leaves the slices as
    they were, whereas [UserGroups] has sorted the caller's slice before
    it asked the group. *)
Theorem follower_gets_shared_result p email s tok sess st :
  let role_of endpoint key :=
    (Do_role (single p) (Go.Sprintf_slash endpoint key) (flights st)).1 in
  let sorted := Go.sort_Strings (elems st s) in
  let key_vg := Go.Sprintf_colon email (Go.strings_Join (elems st s) ",") in
  let key_ug := Go.Sprintf_colon email (Go.strings_Join sorted ",") in
  (∀ r count,
     role_of "ValidateGroup" key_vg = Joins (AnyResponsePtr r) None count →
     let m := ValidateGroup p email s tok st in
     m.1 = (InGroups r, Allowed r, None)
     ∧ upstream m.2 = upstream st ∧ slices m.2 = slices st)
  ∧ (∀ gs count,
       role_of "UserGroups" key_ug = Joins (AnyStrings gs) None count →
       let m := UserGroups p email s tok st in
       m.1 = (gs, None)
       ∧ upstream m.2 = upstream st
       ∧ slices m.2 = alter Go.sort_Strings s (slices st))
  ∧ (∀ b count,
       role_of "ValidateSessionToken" (AccessToken sess)
         = Joins (AnyBool b) None count →
       let m := ValidateSessionToken p sess st in
       m.1 = b ∧ upstream m.2 = upstream st ∧ slices m.2 = slices st)
  ∧ (∀ b count,
       role_of "RefreshSessionToken" (RefreshToken sess)
         = Joins (AnyBool b) None count →
       let m := RefreshSessionToken p sess st in
       m.1 = (b, None) ∧ upstream m.2 = upstream st ∧ slices m.2 = slices st).
Proof.
  cbv zeta. split; [|split; [|split]].
  - intros r count H.
    rewrite ValidateGroup_result, ValidateGroup_state.
    rewrite (do_joins _ _ _ _ _ _ _ _ H).
    by destruct (do_state_joins _ _ _ (ValidateGroup_thunk p email s tok)
                   _ _ _ _ H) as [-> ->].
  - intros gs count H.
    rewrite UserGroups_result, UserGroups_state.
    rewrite (do_joins p _ _ _ (sort_Strings s st).2 _ _ _ H).
    by destruct (do_state_joins p _ _ (UserGroups_thunk p email s tok)
                   (sort_Strings s st).2 _ _ _ H) as [-> ->].
  - intros b count H.
    rewrite ValidateSessionToken_result, ValidateSessionToken_state.
    rewrite (do_joins _ _ _ _ _ _ _ _ H).
    by destruct (do_state_joins _ _ _ (ValidateSessionToken_thunk p sess)
                   _ _ _ _ H) as [-> ->].
  - intros b count H.
    rewrite RefreshSessionToken_result, RefreshSessionToken_state.
    rewrite (do_joins _ _ _ _ _ _ _ _ H).
    by destruct (do_state_joins _ _ _ (RefreshSessionToken_thunk p sess)
                   _ _ _ _ H) as [-> ->].
Qed.

End Roles.

(** A leader on the sample provider: the groups come back sorted, as the
    provider was handed them. *)
Lemma leader_gets_provider_result_witness :
  let r := SingleFlightProvider.ValidateGroup Sample.solo "a@x.com"
             1%positive "tok" Sample.st0 in
  r.1 = (["g1"; "g2"], true, None)
  ∧ upstream r.2 = []
  ∧ slices r.2 = alter Go.sort_Strings 1%positive (slices Sample.st0).
Proof.
  apply (leader_gets_provider_result Sample.solo "a@x.com" 1%positive "tok"
           Sample.session Sample.st0) with (count := 1).
  vm_compute. reflexivity.
Defined.

(** A follower that is handed the groups of the leader. *)
Lemma follower_gets_shared_result_witness :
  let m := SingleFlightProvider.UserGroups
             (Sample.follower (AnyStrings ["g1"]) None 2) "a@x.com"
             1%positive "tok" Sample.st0 in
  m.1 = (["g1"], None)
  ∧ upstream m.2 = upstream Sample.st0
  ∧ slices m.2 = alter Go.sort_Strings 1%positive (slices Sample.st0).
Proof.
  apply (follower_gets_shared_result
           (Sample.follower (AnyStrings ["g1"]) None 2) "a@x.com" 1%positive
           "tok" Sample.session Sample.st0) with (count := 2).
  vm_compute. reflexivity.
Defined.

(** ** More on the keys *)

Section MoreKeys.
Context {U G : Type}.
Implicit Types (p : SingleFlightProvider U G) (st : State U G).
Import SingleFlightProvider.

Lemma ValidateSessionToken_thunk_extends p sess :
  extends_trace (ValidateSessionToken_thunk p sess).
Proof. intros st. rewrite ValidateSessionToken_thunk_state; simpl. eauto. Qed.

Lemma RefreshSessionToken_thunk_extends p sess :
  extends_trace (RefreshSessionToken_thunk p sess).
Proof. intros st. rewrite RefreshSessionToken_thunk_state; simpl. eauto. Qed.

Lemma ValidateSessionToken_issued p sess st :
  issued_key st (ValidateSessionToken p sess st).2
  = Some (Go.Sprintf_slash "ValidateSessionToken" (AccessToken sess)).
Proof.
  rewrite ValidateSessionToken_state.
  destruct (do_trace p "ValidateSessionToken" (AccessToken sess) _ st
              (ValidateSessionToken_thunk_extends p sess)) as [evs H].
  by apply issued_key_app with evs.
Qed.

Lemma RefreshSessionToken_issued p sess st :
  issued_key st (RefreshSessionToken p sess st).2
  = Some (Go.Sprintf_slash "RefreshSessionToken" (RefreshToken sess)).
Proof.
  rewrite RefreshSessionToken_state.
  destruct (do_trace p "RefreshSessionToken" (RefreshToken sess) _ st
              (RefreshSessionToken_thunk_extends p sess)) as [evs H].
  by apply issued_key_app with evs.
Qed.

(** X4: two session checks share a key exactly when the access tokens are
    equal, and two refreshes exactly when the refresh tokens are equal:
    no other field of the session, and no other state, is part of the
    key. *)
Theorem session_key_iff p1 p2 sess1 sess2 st1 st2 :
  (issued_key st1 (ValidateSessionToken p1 sess1 st1).2
   = issued_key st2 (ValidateSessionToken p2 sess2 st2).2
   ↔ AccessToken sess1 = AccessToken sess2)
  ∧ (issued_key st1 (RefreshSessionToken p1 sess1 st1).2
     = issued_key st2 (RefreshSessionToken p2 sess2 st2).2
     ↔ RefreshToken sess1 = RefreshToken sess2).
Proof.
  rewrite !ValidateSessionToken_issued, !RefreshSessionToken_issued.
  split; split.
  - intros H. apply (inj Some) in H. by apply slash_key_inj in H.
  - by intros ->.
  - intros H. apply (inj Some) in H. by apply slash_key_inj in H.
  - by intros ->.
Qed.

(** The endpoint names tell the keys of the four methods apart. *)
Lemma endpoint_prefix_ne k1 k2 k3 k4 :
  Go.Sprintf_slash "ValidateGroup" k1 ≠ Go.Sprintf_slash "UserGroups" k2
  ∧ Go.Sprintf_slash "ValidateGroup" k1
    ≠ Go.Sprintf_slash "ValidateSessionToken" k3
  ∧ Go.Sprintf_slash "ValidateGroup" k1
    ≠ Go.Sprintf_slash "RefreshSessionToken" k4
  ∧ Go.Sprintf_slash "UserGroups" k2
    ≠ Go.Sprintf_slash "ValidateSessionToken" k3
  ∧ Go.Sprintf_slash "UserGroups" k2
    ≠ Go.Sprintf_slash "RefreshSessionToken" k4
  ∧ Go.Sprintf_slash "ValidateSessionToken" k3
    ≠ Go.Sprintf_slash "RefreshSessionToken" k4.
Proof.
  unfold Go.Sprintf_slash, String.append.
  repeat split; intros H; discriminate H.
Qed.

(** X5: calls of two different methods never share a key, whatever their
    arguments: an execution is shared among calls of one method only. *)
Theorem methods_never_share_a_key p email1 email2 s1 s2 tok1 tok2
    sess3 sess4 st1 st2 st3 st4 :
  let vg := issued_key st1 (ValidateGroup p email1 s1 tok1 st1).2 in
  let ug := issued_key st2 (UserGroups p email2 s2 tok2 st2).2 in
  let vs := issued_key st3 (ValidateSessionToken p sess3 st3).2 in
  let rt := issued_key st4 (RefreshSessionToken p sess4 st4).2 in
  vg ≠ ug ∧ vg ≠ vs ∧ vg ≠ rt ∧ ug ≠ vs ∧ ug ≠ rt ∧ vs ≠ rt.
Proof.
  cbv zeta.
  rewrite ValidateGroup_issued, UserGroups_issued,
    ValidateSessionToken_issued, RefreshSessionToken_issued.
  destruct (endpoint_prefix_ne
              (Go.Sprintf_colon email1 (Go.strings_Join (elems st1 s1) ","))
              (Go.Sprintf_colon email2
                 (Go.strings_Join (Go.sort_Strings (elems st2 s2)) ","))
              (AccessToken sess3) (RefreshToken sess4))
    as (H1 & H2 & H3 & H4 & H5 & H6).
  repeat split; intros H; apply (inj Some) in H; done.
Qed.

(** X6: for emails without a colon and non-empty group names without a comma,
    two calls of [UserGroups] share a key exactly when the emails are equal
    and the group lists are permutations of each other, so that a repeated
    group counts; two calls of [ValidateGroup] share a key exactly when
    the emails are equal and the group lists are equal. *)
Theorem group_key_iff p1 p2 e1 e2 s1 s2 tok1 tok2 st1 st2 :
  let g1 := elems st1 s1 in
  let g2 := elems st2 s2 in
  Go.free_of ":" e1 = true → Go.free_of ":" e2 = true →
  forallb (Go.plain_name ",") g1 = true →
  forallb (Go.plain_name ",") g2 = true →
  (issued_key st1 (UserGroups p1 e1 s1 tok1 st1).2
   = issued_key st2 (UserGroups p2 e2 s2 tok2 st2).2
   ↔ e1 = e2 ∧ g1 ≡ₚ g2)
  ∧ (issued_key st1 (ValidateGroup p1 e1 s1 tok1 st1).2
     = issued_key st2 (ValidateGroup p2 e2 s2 tok2 st2).2
     ↔ e1 = e2 ∧ g1 = g2).
Proof.
  cbv zeta. intros He1 He2 Hg1 Hg2.
  rewrite !UserGroups_issued, !ValidateGroup_issued.
  split; split.
  - intros H. apply (inj Some) in H.
    apply group_key_inj in H as [-> H];
      [|by rewrite ?sort_Strings_forallb..].
    split; [done|].
    by rewrite <-(sort_Strings_Permutation (elems st1 s1)), H,
      sort_Strings_Permutation.
  - intros [-> Hperm]. by rewrite (sort_Strings_perm _ _ Hperm).
  - intros H. apply (inj Some) in H.
    by apply group_key_inj in H.
  - by intros [-> ->].
Qed.

(** X7: the separator is not escaped: a call for any list of groups shares
    its key with the call, for the same email, for the one group whose name
    is the list joined by commas (the sorted list for [UserGroups]). *)
Theorem joined_name_shares_key p1 p2 email s1 s2 tok1 tok2 st1 st2 :
  (elems st2 s2 = [Go.strings_Join (elems st1 s1) ","] →
   issued_key st1 (ValidateGroup p1 email s1 tok1 st1).2
   = issued_key st2 (ValidateGroup p2 email s2 tok2 st2).2)
  ∧ (elems st2 s2 = [Go.strings_Join (Go.sort_Strings (elems st1 s1)) ","] →
     issued_key st1 (UserGroups p1 email s1 tok1 st1).2
     = issued_key st2 (UserGroups p2 email s2 tok2 st2).2).
Proof.
  rewrite !UserGroups_issued, !ValidateGroup_issued.
  split; intros ->; reflexivity.
Qed.

(** C9, as amended: for every coalesced operation the key is a function
    of the identifying inputs only, the same on every call: the email and
    the elements of the group list for [ValidateGroup] and [UserGroups],
    the access token for [ValidateSessionToken], the refresh token for
    [RefreshSessionToken], whatever the provider, the tokens and the rest
    of the state; and deriving a key makes no call on the provider, the
    group or the metrics sink.  Deriving a key is not free of effects on
    the caller's argument: [UserGroups] sorts the caller's group slice in
    place before it derives the key, so that the slice is then the sorted
    permutation of what it was and a second derivation changes nothing
    more; after [ValidateGroup] and [UserGroups] the caller's slice is a
    permutation of what it was. *)
Theorem key_derivation_effects p1 p2 email s1 s2 tok1 tok2 sess1 sess2
    st1 st2 :
  let vg := ValidateGroup_key email s1 st1 in
  let ug := UserGroups_key email s1 st1 in
  (* the same inputs, the same key *)
  (elems st1 s1 = elems st2 s2 →
   issued_key st1 (ValidateGroup p1 email s1 tok1 st1).2
   = issued_key st2 (ValidateGroup p2 email s2 tok2 st2).2
   ∧ issued_key st1 (UserGroups p1 email s1 tok1 st1).2
     = issued_key st2 (UserGroups p2 email s2 tok2 st2).2)
  ∧ (AccessToken sess1 = AccessToken sess2 →
     issued_key st1 (ValidateSessionToken p1 sess1 st1).2
     = issued_key st2 (ValidateSessionToken p2 sess2 st2).2)
  ∧ (RefreshToken sess1 = RefreshToken sess2 →
     issued_key st1 (RefreshSessionToken p1 sess1 st1).2
     = issued_key st2 (RefreshSessionToken p2 sess2 st2).2)
  (* the key that is issued is the key that was derived *)
  ∧ issued_key st1 (ValidateGroup p1 email s1 tok1 st1).2
    = Some (Go.Sprintf_slash "ValidateGroup" vg.1)
  ∧ issued_key st1 (UserGroups p1 email s1 tok1 st1).2
    = Some (Go.Sprintf_slash "UserGroups" ug.1)
  ∧ ug.1 = Go.Sprintf_colon email
             (Go.strings_Join (Go.sort_Strings (elems st1 s1)) ",")
  (* a second derivation *)
  ∧ (ValidateGroup_key email s1 vg.2).1 = vg.1
  ∧ UserGroups_key email s1 ug.2 = ug
  (* no call on a collaborator *)
  ∧ (upstream vg.2 = upstream st1 ∧ flights vg.2 = flights st1
     ∧ trace vg.2 = trace st1)
  ∧ (upstream ug.2 = upstream st1 ∧ flights ug.2 = flights st1
     ∧ trace ug.2 = trace st1)
  (* the caller's slice *)
  ∧ elems ug.2 s1 = Go.sort_Strings (elems st1 s1)
  ∧ elems vg.2 s1 ≡ₚ elems st1 s1
  ∧ elems (UserGroups p1 email s1 tok1 st1).2 s1 ≡ₚ elems st1 s1
  ∧ elems (ValidateGroup p1 email s1 tok1 st1).2 s1 ≡ₚ elems st1 s1.
Proof.
  cbv zeta.
  rewrite !ValidateGroup_issued, !UserGroups_issued,
    !ValidateSessionToken_issued, !RefreshSessionToken_issued.
  rewrite !UserGroups_key_eq, !ValidateGroup_key_eq; cbn [fst snd].
  pose proof (elems_sort_Strings s1 st1) as E.
  assert (Hvg : elems (ValidateGroup p1 email s1 tok1 st1).2 s1
                ≡ₚ elems st1 s1).
  { destruct (ValidateGroup_slices p1 email s1 tok1 st1) as [H|H].
    - unfold elems. by rewrite H.
    - by apply elems_alter_sort. }
  pose proof (elems_alter_sort st1 _ s1
                (UserGroups_slices p1 email s1 tok1 st1)) as [Hug _].
  split; [by intros ->|]. split; [by intros ->|]. split; [by intros ->|].
  split; [done|]. split; [done|]. split; [done|]. split; [done|].
  split.
  { rewrite E, sort_Strings_idem. f_equal.
    unfold sort_Strings; cbn [snd slices upstream flights trace].
    by rewrite alter_sort_idem. }
  split; [done|]. split; [done|]. split; [done|]. split; [done|].
  split; [exact Hug|exact Hvg].
Qed.

End MoreKeys.

(** The keys on the sample state: the same elements give the same key,
    and the same access token gives the same key. *)
Lemma key_derivation_effects_witness :
  (issued_key Sample.st0
     (SingleFlightProvider.ValidateGroup Sample.solo "a@x.com" 1%positive
        "token-1" Sample.st0).2
   = issued_key Sample.st0
       (SingleFlightProvider.ValidateGroup
          (Sample.follower AnyNil None 2) "a@x.com" 1%positive "token-2"
          Sample.st0).2
   ∧ issued_key Sample.st0
       (SingleFlightProvider.UserGroups Sample.solo "a@x.com" 1%positive
          "token-1" Sample.st0).2
     = issued_key Sample.st0
         (SingleFlightProvider.UserGroups
            (Sample.follower AnyNil None 2) "a@x.com" 1%positive "token-2"
            Sample.st0).2)
  ∧ issued_key Sample.st0
      (SingleFlightProvider.ValidateSessionToken Sample.solo Sample.session
         Sample.st0).2
    = issued_key Sample.st0
        (SingleFlightProvider.ValidateSessionToken Sample.solo Sample.nobody
           Sample.st0).2.
Proof.
  split.
  - apply (key_derivation_effects Sample.solo (Sample.follower AnyNil None 2)
             "a@x.com" 1%positive 1%positive "token-1" "token-2"
             Sample.session Sample.session Sample.st0 Sample.st0).
    reflexivity.
  - apply (key_derivation_effects Sample.solo Sample.solo
             "a@x.com" 1%positive 1%positive "token-1" "token-2"
             Sample.session Sample.nobody Sample.st0 Sample.st0).
    reflexivity.
Defined.

Lemma group_key_iff_witness :
  issued_key Sample.st0
    (SingleFlightProvider.ValidateGroup Sample.solo "a@x.com" 1%positive
       "token-1" Sample.st0).2
  = issued_key Sample.st0
      (SingleFlightProvider.ValidateGroup Sample.solo "a@x.com" 2%positive
         "token-2" Sample.st0).2
  ↔ "a@x.com" = "a@x.com"
    ∧ elems Sample.st0 1%positive = elems Sample.st0 2%positive.
Proof.
  apply (group_key_iff Sample.solo Sample.solo "a@x.com" "a@x.com"
           1%positive 2%positive "token-1" "token-2" Sample.st0 Sample.st0).
  - vm_compute. reflexivity.
  - vm_compute. reflexivity.
  - vm_compute. reflexivity.
  - vm_compute. reflexivity.
Defined.

(** The groups [g2, g1] and the one group [g1,g2]. *)
Lemma joined_name_shares_key_witness :
  let st := mkState {[ 3%positive := ["g1,g2"] ]} [] tt [] in
  issued_key Sample.st0
    (SingleFlightProvider.UserGroups Sample.solo "a@x.com" 1%positive
       "token-1" Sample.st0).2
  = issued_key st
      (SingleFlightProvider.UserGroups Sample.solo "a@x.com" 3%positive
         "token-1" st).2.
Proof.
  apply (joined_name_shares_key Sample.solo Sample.solo "a@x.com"
           1%positive 3%positive "token-1" "token-1" Sample.st0).
  vm_compute. reflexivity.
Defined.

(** ** The caller's slice after a call *)

Section SliceOrder.
Context {U G : Type}.
Implicit Types (p : SingleFlightProvider U G) (st : State U G).
Import SingleFlightProvider.

Lemma elems_alter_sorted st st' s :
  slices st' = alter Go.sort_Strings s (slices st) →
  Sorted String.le (elems st' s).
Proof.
  intros H. unfold elems. rewrite H, lookup_alter_eq.
  destruct (slices st !! s); simpl; [apply sort_Strings_Sorted|constructor].
Qed.

(** X8: when [UserGroups] returns, the caller's group slice is in increasing
    order, whether the caller led or joined and whatever the provider
    answered; when [ValidateGroup] returns to a caller that led, its slice
    is in increasing order as well. *)
Theorem caller_slice_sorted p email s tok st :
  Sorted String.le (elems (UserGroups p email s tok st).2 s)
  ∧ (∀ count,
       (Do_role (single p)
          (Go.Sprintf_slash "ValidateGroup"
             (Go.Sprintf_colon email (Go.strings_Join (elems st s) ",")))
          (flights st)).1 = Leads count →
       Sorted String.le (elems (ValidateGroup p email s tok st).2 s)).
Proof.
  split.
  - apply (elems_alter_sorted st), UserGroups_slices.
  - intros count H. apply (elems_alter_sorted st).
    rewrite ValidateGroup_state.
    destruct (do_state_leads _ _ _ (ValidateGroup_thunk p email s tok) _ _ H)
      as [-> _].
    by rewrite ValidateGroup_thunk_state.
Qed.

End SliceOrder.

Lemma caller_slice_sorted_witness :
  Sorted String.le
    (elems (SingleFlightProvider.ValidateGroup Sample.solo "a@x.com"
              1%positive "tok" Sample.st0).2 1%positive).
Proof.
  apply (caller_slice_sorted Sample.solo "a@x.com" 1%positive "tok"
           Sample.st0) with (count := 1).
  vm_compute. reflexivity.
Defined.

(** ** More on the validator runner *)

Section MoreRunner.
Context {W : Type}.
Implicit Types (validators : list (Options.Validator W)) (w : W).
Import Options.

Lemma verdicts_app validators1 validators2 session w :
  verdicts (validators1 ++ validators2) session w
  = verdicts validators1 session w
    ++ verdicts validators2 session (final_world validators1 session w).
Proof.
  revert w. induction validators1 as [|v vs IH]; intros w; simpl; [done|].
  by rewrite IH.
Qed.

Lemma final_world_app validators1 validators2 session w :
  final_world (validators1 ++ validators2) session w
  = final_world validators2 session (final_world validators1 session w).
Proof.
  revert w. induction validators1 as [|v vs IH]; intros w; simpl; [done|].
  by rewrite IH.
Qed.

Lemma omap_id_length (l : list (option error)) :
  (length (omap id l) ≤ length l)%nat
  ∧ (length (omap id l) = length l ↔ Forall is_Some l).
Proof.
  induction l as [|[e|] l [IH1 IH2]]; simpl;
    try change (list_omap (option error) error id l) with (omap id l).
  - split; [lia|]. split; [constructor|done].
  - split; [lia|]. split.
    + intros H. constructor; [by eexists|]. apply IH2. lia.
    + intros H. inversion H; subst. f_equal. by apply IH2.
  - split; [lia|]. split.
    + intros H. lia.
    + intros H. inversion H as [|?? [? Hx] ?]; subst. discriminate Hx.
Qed.

(** X9: running two lists of validators one after the other is running their
    concatenation: the errors are the errors of the first list followed by
    those of the second, which is run on what the first left. *)
Theorem RunValidators_app validators1 validators2 session w calls calls' :
  let r1 := RunValidators validators1 session (w, calls) in
  let r2 := RunValidators validators2 session (r1.2.1, calls') in
  let r := RunValidators (validators1 ++ validators2) session (w, calls) in
  r.1 = r1.1 ++ r2.1 ∧ r.2.1 = r2.2.1.
Proof.
  cbv zeta. unfold RunValidators.
  rewrite !RunValidators_loop_spec; simpl.
  by rewrite verdicts_app, omap_app, final_world_app.
Qed.

Variable IsWithinGracePeriod : loc → W → bool.

(** X10: neither runner returns more errors than there are validators, so that
    the slice made with that capacity is not grown; the plain runner
    returns as many exactly when every validator fails, and the runner
    with the grace period returns no more than the plain one. *)
Theorem runners_within_capacity validators session st :
  let all := RunValidators validators session st in
  let kept := RunValidatorsWithGracePeriod IsWithinGracePeriod validators
                session st in
  (length kept.1 ≤ length all.1)%nat
  ∧ (length all.1 ≤ length validators)%nat
  ∧ (length all.1 = length validators
     ↔ Forall is_Some (verdicts validators session st.1)).
Proof.
  cbv zeta. unfold RunValidatorsWithGracePeriod; cbv zeta.
  rewrite grace_loop_spec. destruct st as [w calls].
  unfold RunValidators. rewrite RunValidators_loop_spec; simpl.
  rewrite <-(verdicts_length validators session w).
  split; [apply length_filter|]. apply omap_id_length.
Qed.

Lemma filter_id_iff {A} (P : A → Prop) `{!∀ x, Decision (P x)} (l : list A) :
  filter P l = l ↔ Forall P l.
Proof.
  induction l as [|x l IH].
  - split; [constructor|done].
  - destruct (decide (P x)) as [Hx|Hx].
    + rewrite filter_cons_True by done. split.
      * intros [= Hf]. constructor; [done|]. by apply IH.
      * intros Hf. inversion Hf; subst. f_equal. by apply IH.
    + rewrite filter_cons_False by done. split.
      * intros Hf. pose proof (length_filter P l) as Hlen.
        rewrite Hf in Hlen. simpl in Hlen. lia.
      * intros Hf. by inversion Hf.
Qed.

Lemma filter_nil_iff {A} (P : A → Prop) `{!∀ x, Decision (P x)} (l : list A) :
  filter P l = [] ↔ Forall (λ x, ¬ P x) l.
Proof.
  induction l as [|x l IH].
  - split; [constructor|done].
  - destruct (decide (P x)) as [Hx|Hx].
    + rewrite filter_cons_True by done. split; [done|].
      intros Hf. by inversion Hf.
    + rewrite filter_cons_False by done. rewrite IH. split.
      * by constructor.
      * intros Hf. by inversion Hf.
Qed.

(** X11: the runner with the grace period returns the errors of the plain
    runner unchanged exactly when none of them is suppressed, and returns
    no error exactly when each of them is suppressed. *)
Theorem grace_period_extremes validators session st :
  let all := RunValidators validators session st in
  let kept := RunValidatorsWithGracePeriod IsWithinGracePeriod validators
                session st in
  (kept.1 = all.1
   ↔ Forall (λ e, suppressed IsWithinGracePeriod all.2.1 e = false) all.1)
  ∧ (kept.1 = []
     ↔ Forall (λ e, suppressed IsWithinGracePeriod all.2.1 e = true) all.1).
Proof.
  cbv zeta. unfold RunValidatorsWithGracePeriod; cbv zeta.
  rewrite grace_loop_spec; simpl. split.
  - apply filter_id_iff.
  - rewrite filter_nil_iff. apply Forall_iff. intros e.
    by destruct (suppressed _ _ e).
Qed.

End MoreRunner.

(** ** Calls one after the other *)

Section Sequence.
Context {U G : Type}.
Implicit Types (p : SingleFlightProvider U G) (st : State U G).
Import SingleFlightProvider.

Lemma ValidateSessionToken_leads_trace p sess st count :
  (Do_role (single p)
     (Go.Sprintf_slash "ValidateSessionToken" (AccessToken sess))
     (flights st)).1 = Leads count →
  trace (ValidateSessionToken p sess st).2
  = trace st
    ++ [EvSingleDo (Go.Sprintf_slash "ValidateSessionToken"
                      (AccessToken sess));
        EvProvider "ValidateSessionToken" [AccessToken sess]]
    ++ metric_events "ValidateSessionToken" count.
Proof.
  intros H. rewrite ValidateSessionToken_state, do_state; cbv zeta.
  rewrite H; cbn [trace role_count].
  rewrite ValidateSessionToken_thunk_state; cbn [trace].
  by rewrite <-!(assoc_L (++)).
Qed.

Lemma ValidateSessionToken_leads_result p sess st count :
  (Do_role (single p)
     (Go.Sprintf_slash "ValidateSessionToken" (AccessToken sess))
     (flights st)).1 = Leads count →
  let up := provider_ValidateSessionToken (provider p) sess (upstream st) in
  (ValidateSessionToken p sess st).1 = up.1
  ∧ upstream (ValidateSessionToken p sess st).2 = up.2.
Proof.
  intros H. cbv zeta. split.
  - rewrite ValidateSessionToken_result, (do_leads _ _ _ _ _ _ H).
    by rewrite ValidateSessionToken_thunk_value.
  - rewrite ValidateSessionToken_state.
    by destruct (do_state_leads _ _ _ (ValidateSessionToken_thunk p sess)
                   _ _ H) as [_ ->].
Qed.

Lemma metric_events_not_provider endpoint shared :
  filter is_provider_call (metric_events endpoint shared) = [].
Proof. unfold metric_events. by destruct (0 <? shared). Qed.

(** X12: the middleware keeps no result: when a session check has completed and
    the same session is checked again, the caller leading both times, the
    provider is asked both times, and the second answer is the provider's
    answer in the state the first call left, not the first answer. *)
Theorem completed_call_not_reused p sess st count1 count2 :
  let key := Go.Sprintf_slash "ValidateSessionToken" (AccessToken sess) in
  let first := ValidateSessionToken p sess st in
  let second := ValidateSessionToken p sess first.2 in
  let up1 := provider_ValidateSessionToken (provider p) sess (upstream st) in
  let up2 := provider_ValidateSessionToken (provider p) sess up1.2 in
  (Do_role (single p) key (flights st)).1 = Leads count1 →
  (Do_role (single p) key (flights first.2)).1 = Leads count2 →
  first.1 = up1.1
  ∧ second.1 = up2.1
  ∧ upstream second.2 = up2.2
  ∧ filter is_provider_call (new_events st second.2)
    = [EvProvider "ValidateSessionToken" [AccessToken sess];
       EvProvider "ValidateSessionToken" [AccessToken sess]].
Proof.
  cbv zeta. intros H1 H2.
  destruct (ValidateSessionToken_leads_result p sess st count1 H1)
    as [Hr1 Hu1].
  destruct (ValidateSessionToken_leads_result p sess _ count2 H2)
    as [Hr2 Hu2].
  rewrite Hu1 in Hr2, Hu2. repeat split; try done.
  rewrite (new_events_app st _
             (([EvSingleDo (Go.Sprintf_slash "ValidateSessionToken"
                              (AccessToken sess));
                EvProvider "ValidateSessionToken" [AccessToken sess]]
               ++ metric_events "ValidateSessionToken" count1)
              ++ [EvSingleDo (Go.Sprintf_slash "ValidateSessionToken"
                                (AccessToken sess));
                  EvProvider "ValidateSessionToken" [AccessToken sess]]
              ++ metric_events "ValidateSessionToken" count2)).
  - rewrite !filter_app, !metric_events_not_provider. reflexivity.
  - rewrite (ValidateSessionToken_leads_trace p sess _ count2 H2).
    rewrite (ValidateSessionToken_leads_trace p sess st count1 H1).
    by rewrite <-!(assoc_L (++)).
Qed.

End Sequence.

(** Two checks of the sample session, one after the other. *)
Lemma completed_call_not_reused_witness :
  let first := SingleFlightProvider.ValidateSessionToken Sample.solo
                 Sample.session Sample.st0 in
  let second := SingleFlightProvider.ValidateSessionToken Sample.solo
                  Sample.session first.2 in
  first.1 = true
  ∧ second.1 = true
  ∧ upstream second.2 = []
  ∧ filter is_provider_call (new_events Sample.st0 second.2)
    = [EvProvider "ValidateSessionToken" ["access-1"];
       EvProvider "ValidateSessionToken" ["access-1"]].
Proof.
  apply (completed_call_not_reused Sample.solo Sample.session Sample.st0
           1 1).
  - vm_compute. reflexivity.
  - vm_compute. reflexivity.
Defined.
